(** * Verification of the INA226 driver and the NanoPi NEO adaptor

    A shallow embedding of

      - [drivers/i2c/ina226_driver.go]          (module [INA226]),
      - [platforms/nanopineo/nanopi_neo_adaptor.go] and its pin table
                                                 (module [NanoPiNeo]),

    followed by the theorems about them.

    Conventions of the embedding.

    - Go's [float64] is Rocq's primitive binary64 [float]; [+], [*], [/] and
      the comparisons are the IEEE 754 operations in both.
    - Go's unsigned integers are [Z] with the wrap-around written out;
      a byte is a [Z] in [0, 256).
    - A Go function returning [(T, error)] returns a pair [T * option error]
      ([None] is Go's [nil] error), so "return 0, err" stays visible.
    - A pointer or interface value that may be [nil] is an [option].
    - A run-time panic (nil dereference, index out of range) is the outcome
      [Panicked]; everything else ends in [Normal].
    - The I2C bus and the sysfs files are the environment: every call on
      them is appended to a history, and the environment's answer to a call
      is a function of the history so far (an oracle), over which the
      theorems quantify. *)

From Stdlib Require Import ZArith Floats Lia.
From stdpp Require Import base option list gmap strings pretty.

Set Warnings "-inexact-float,-register-all".
Local Open Scope Z_scope.

(** ** Go run-time conventions *)

Module Go.

Inductive panic : Type :=
| NilDereference
| IndexOutOfRange (index : Z) (len : nat).

Inductive outcome (A : Type) : Type :=
| Normal (a : A)
| Panicked (why : panic).
Arguments Normal {A} a.
Arguments Panicked {A} why.

(** A Go method with receiver state [S]: it returns a value and the updated
    receiver, or panics. *)
Definition prog (S A : Type) : Type := S → outcome (A * S).

Definition prog_ret {S A} (a : A) : prog S A := λ s, Normal (a, s).

Definition prog_bind {S A B} (m : prog S A) (k : A → prog S B) : prog S B :=
  λ s, match m s with
       | Normal (a, s') => k a s'
       | Panicked why => Panicked why
       end.

Definition prog_panic {S A} (why : panic) : prog S A := λ _, Panicked why.

Definition prog_get {S} : prog S S := λ s, Normal (s, s).

Definition prog_modify {S} (f : S → S) : prog S unit := λ s, Normal (tt, f s).

#[global] Instance prog_mret S : MRet (prog S) := λ A, @prog_ret S A.
#[global] Instance prog_mbind S : MBind (prog S) := λ A B k m, prog_bind m k.

(** [byte(x)] for an unsigned [x]: the low eight bits. *)
Definition byte_of (x : Z) : Z := x `mod` 256.

(** The integer a finite float truncates to (rounding toward zero), and the
    one it floors to; [None] for infinities and NaN.  A finite float is
    [(-1)^s * m * 2^e]. *)
Definition float_trunc (f : float) : option Z :=
  match Prim2SF f with
  | S754_zero _ => Some 0
  | S754_finite s m e =>
      let sm := if s then Z.neg m else Z.pos m in
      Some (if 0 <=? e then sm * 2 ^ e else Z.quot sm (2 ^ (- e)))
  | S754_infinity _ | S754_nan => None
  end.

Definition float_floor (f : float) : option Z :=
  match Prim2SF f with
  | S754_zero _ => Some 0
  | S754_finite s m e =>
      let sm := if s then Z.neg m else Z.pos m in
      Some (if 0 <=? e then sm * 2 ^ e else sm `div` (2 ^ (- e)))
  | S754_infinity _ | S754_nan => None
  end.

(** What is left to the platform: the Go specification makes the result of a
    float-to-integer conversion implementation-dependent when the integer
    type cannot represent the truncated value. *)
Class FloatConv : Type :=
  { conv_unrepresentable : float → Z }.

(** [uintN(f)] for a [float64] [f], with [N = bits]. *)
Definition uint_of_float `{FloatConv} (bits : Z) (f : float) : Z :=
  match float_trunc f with
  | Some z =>
      if (0 <=? z) && (z <? 2 ^ bits) then z
      else conv_unrepresentable f `mod` 2 ^ bits
  | None => conv_unrepresentable f `mod` 2 ^ bits
  end.

(** [float64(z)] for an integer of at most 32 bits: exact. *)
Definition float_of_Z (z : Z) : float :=
  if z <? 0 then PrimFloat.opp (PrimFloat.of_uint63 (Uint63.of_Z (- z)))
  else PrimFloat.of_uint63 (Uint63.of_Z z).

(** [int16(w)] for a [uint16] [w]: two's complement reinterpretation. *)
Definition int16_of_uint16 (w : Z) : Z :=
  if w <? 32768 then w else w - 65536.

(** The functions of Go's package [math] that the driver calls.  They are
    not part of the repository, and [Log10] and [Pow] are not correctly
    rounded, so the development is parametric in them. *)
Class MathPkg : Type :=
  { Log10 : float → float;
    Pow : float → float → float;
    Floor : float → float;
    Ceil : float → float }.

End Go.

Import Go.

(** ** drivers/i2c/ina226_driver.go *)

Module INA226.

(** Registers address map *)
Definition CONFIG_REG : Z := 0x00.
Definition SHUNTVOLTAGE_REG : Z := 0x01.
Definition BUSVOLTAGE_REG : Z := 0x02.
Definition POWER_REG : Z := 0x03.
Definition CURRENT_REG : Z := 0x04.
Definition CALIBRATION_REG : Z := 0x05.
Definition MASKENABLE_REG : Z := 0x06.
Definition ALERTLIMIT_REG : Z := 0x07.
Definition MANUFACTURERID_REG : Z := 0xFE.
Definition DIEID_REG : Z := 0xFF.

(** Configuration register helper constants (a selection: one per field,
    and the reset bit). *)
Definition INA226_MODE_SHUNT_BUS_CONT : Z := 0x07.
Definition INA226_SHUNT_CONV_TIME_1100US : Z := Z.shiftl 0x04 3.
Definition INA226_BUS_CONV_TIME_1100US : Z := Z.shiftl 0x04 6.
Definition INA226_AVERAGES_16 : Z := Z.shiftl 0x02 9.
Definition INA226_RST : Z := Z.shiftl 0x01 15.

Definition is_uint16 (w : Z) : Prop := 0 <= w < 65536.
Definition is_byte (b : Z) : Prop := 0 <= b < 256.

(** The errors the driver returns: those of the connection, passed on as
    they are, and the one it makes itself with [fmt.Errorf] (the message
    prints the offending value). *)
Inductive error : Type :=
| BusError (msg : string)
| RShuntNotCorrect (value : float).

(** *** The connection

    [i2c.Connection] is an interface; the driver calls its [Write] and
    [Read].  A connection is modelled by the calls made on it so far and the
    device behind it, which answers a call knowing the earlier ones. *)
Inductive busOp : Type :=
| BusWrite (buf : list Z)
| BusRead (len : nat).

Record Device : Type :=
  { (* the message of the error [Write] returns, if any *)
    write_reply : list busOp → list Z → option string;
    (* the bytes [Read] delivers into the buffer, and its error, if any *)
    read_reply : list busOp → nat → list Z * option string }.

Record Connection : Type :=
  { history : list busOp;
    device : Device }.

Record LoadSet : Type :=
  { rShunt : float; iMax : float; vBusMax : float; vShuntMax : float }.

Record INA226Driver : Type :=
  { name : string;
    connection : option Connection;   (* nil until Start binds it *)
    loadSet : LoadSet }.

Definition set_connection (c : Connection) (i : INA226Driver) : INA226Driver :=
  {| name := name i; connection := Some c; loadSet := loadSet i |}.

Definition set_rShunt (v : float) (i : INA226Driver) : INA226Driver :=
  {| name := name i; connection := connection i;
     loadSet := {| rShunt := v; iMax := iMax (loadSet i);
                   vBusMax := vBusMax (loadSet i);
                   vShuntMax := vShuntMax (loadSet i) |} |}.

Definition set_iMax (v : float) (i : INA226Driver) : INA226Driver :=
  {| name := name i; connection := connection i;
     loadSet := {| rShunt := rShunt (loadSet i); iMax := v;
                   vBusMax := vBusMax (loadSet i);
                   vShuntMax := vShuntMax (loadSet i) |} |}.

(** The calls made on the driver's connection so far. *)
Definition bus_trace (i : INA226Driver) : list busOp :=
  match connection i with
  | Some c => history c
  | None => []
  end.

(** [i.connection.Write(buf)]; the byte count it returns is dropped at every
    call site. *)
Definition conn_Write (buf : list Z) : prog INA226Driver (option error) :=
  λ i, match connection i with
       | None => Panicked NilDereference
       | Some c =>
           Normal (BusError <$> write_reply (device c) (history c) buf,
                   set_connection {| history := history c ++ [BusWrite buf];
                                     device := device c |} i)
       end.

(** [Read] fills at most [len] bytes of a zeroed buffer. *)
Definition fill_buffer (len : nat) (data : list Z) : list Z :=
  take len (map byte_of data ++ replicate len 0).

(** [buf := make([]byte, len); i.connection.Read(buf)]: the buffer after the
    call, and the error. *)
Definition conn_Read (len : nat) : prog INA226Driver (list Z * option error) :=
  λ i, match connection i with
       | None => Panicked NilDereference
       | Some c =>
           let '(data, err) := read_reply (device c) (history c) len in
           Normal ((fill_buffer len data, BusError <$> err),
                   set_connection {| history := history c ++ [BusRead len];
                                     device := device c |} i)
       end.

Definition wordToByteArray (w : Z) : list Z :=
  [byte_of (Z.shiftr w 8); byte_of w].

Definition Configure (confs : list Z) : prog INA226Driver (option error) :=
  let configuration := foldl Z.lor 0 confs in
  let buf := [CONFIG_REG] ++ wordToByteArray configuration in
  err ← conn_Write buf;
  match err with
  | Some e => mret (Some e)
  | None => mret None
  end.

Section WithPlatform.
Context `{MathPkg} `{FloatConv}.

(** The value [Calibrate] puts in the calibration register, computed as in
    its body from the stored [rShunt] and [iMax]. *)
Definition calibrationValue (ls : LoadSet) : Z :=
  let currentLSB := (iMax ls / 32768)%float in
  let currentLSB := (currentLSB * 1000000)%float in
  let currentLSB_mantissa :=
    (currentLSB / Pow 10 (Floor (Log10 currentLSB)))%float in
  let currentLSB_approx :=
    (Ceil currentLSB_mantissa * Pow 10 (Floor (Log10 currentLSB)))%float in
  let currentLSB := (currentLSB_approx / 1000000)%float in
  uint_of_float 16 (0.00512 / (currentLSB * rShunt ls))%float.

Definition Calibrate (rShuntValue iMaxValue : float)
  : prog INA226Driver (option error) :=
  _ ← prog_modify (set_rShunt rShuntValue);
  _ ← prog_modify (set_iMax iMaxValue);
  i ← prog_get;
  let buf := [CALIBRATION_REG] ++ wordToByteArray (calibrationValue (loadSet i)) in
  err ← conn_Write buf;
  match err with
  | Some e => mret (Some e)
  | None => mret None
  end.

End WithPlatform.

Definition Reset : prog INA226Driver (option error) :=
  let buf := [CONFIG_REG] ++ wordToByteArray INA226_RST in
  err ← conn_Write buf;
  match err with
  | Some e => mret (Some e)
  | None => mret None
  end.

(** [uint16(buf[0])<<8 | uint16(buf[1])] *)
Definition word_of_buffer (buf : list Z) : Z :=
  Z.lor (Z.shiftl (buf !!! 0%nat) 8) (buf !!! 1%nat).

Definition readRegister16 (reg : Z) : prog INA226Driver (Z * option error) :=
  err ← conn_Write [reg];
  match err with
  | Some e => mret (0, Some e)
  | None =>
      '(buf, err) ← conn_Read 2;
      match err with
      | Some e => mret (0, Some e)
      | None => mret (word_of_buffer buf, None)
      end
  end.

Definition readCalibrationRegister : prog INA226Driver (Z * option error) :=
  '(calReg, err) ← readRegister16 CALIBRATION_REG;
  match err with
  | Some e => mret (0, Some e)
  | None => mret (calReg, None)
  end.

Definition CurrentResolution : prog INA226Driver (float * option error) :=
  i ← prog_get;
  if (rShunt (loadSet i) <=? 0)%float then
    mret (0%float, Some (RShuntNotCorrect (rShunt (loadSet i))))
  else
    '(calibration, err) ← readCalibrationRegister;
    match err with
    | Some e => mret (0%float, Some e)
    | None =>
        mret ((0.00512 / (float_of_Z calibration * rShunt (loadSet i)))%float, None)
    end.

Definition ReadBusVoltage : prog INA226Driver (float * option error) :=
  '(voltage, err) ← readRegister16 BUSVOLTAGE_REG;
  match err with
  | Some e => mret (0%float, Some e)
  | None => mret ((float_of_Z voltage * 1.25)%float, None)
  end.

Definition ReadShuntVoltage : prog INA226Driver (float * option error) :=
  '(voltage, err) ← readRegister16 SHUNTVOLTAGE_REG;
  match err with
  | Some e => mret (0%float, Some e)
  | None => mret ((float_of_Z (int16_of_uint16 voltage) * 0.0025)%float, None)
  end.

Definition ReadShuntCurrentRegister : prog INA226Driver (Z * option error) :=
  '(currentRaw, err) ← readRegister16 CURRENT_REG;
  match err with
  | Some e => mret (0, Some e)
  | None => mret (int16_of_uint16 currentRaw, None)
  end.

Definition ReadShuntCurrent : prog INA226Driver (float * option error) :=
  '(currentRaw, err) ← ReadShuntCurrentRegister;
  match err with
  | Some e => mret (0%float, Some e)
  | None =>
      '(currentResolution, err) ← CurrentResolution;
      match err with
      | Some e => mret (0%float, Some e)
      | None => mret ((float_of_Z currentRaw * currentResolution)%float, None)
      end
  end.

(** The driver [i] once the calls [ops] have been made on its connection
    [c]. *)
Definition after_calls (ops : list busOp) (c : Connection) (i : INA226Driver)
  : INA226Driver :=
  set_connection {| history := history c ++ ops; device := device c |} i.

(** The [LoadSet] of [i] with the two fields [Calibrate] stores. *)
Definition calibrated_LoadSet (rShuntValue iMaxValue : float) (i : INA226Driver)
  : LoadSet :=
  {| rShunt := rShuntValue; iMax := iMaxValue;
     vBusMax := vBusMax (loadSet i); vShuntMax := vShuntMax (loadSet i) |}.

(** *** The rest of the driver *)

(** The other configuration register helper constants. *)
(* MODE: operating mode (3-bit) *)
Definition INA226_MODE_POWER_DOWN : Z := 0x00.
Definition INA226_MODE_SHUNT_TRIG : Z := 0x01.
Definition INA226_MODE_BUS_TRIG : Z := 0x02.
Definition INA226_MODE_SHUNT_BUS_TRIG : Z := 0x03.
Definition INA226_MODE_ADC_OFF : Z := 0x04.
Definition INA226_MODE_SHUNT_CONT : Z := 0x05.
Definition INA226_MODE_BUS_CONT : Z := 0x06.
(* VSHCT: shunt voltage conversion time (3-bit) *)
Definition INA226_SHUNT_CONV_TIME_140US : Z := Z.shiftl 0x00 3.
Definition INA226_SHUNT_CONV_TIME_204US : Z := Z.shiftl 0x01 3.
Definition INA226_SHUNT_CONV_TIME_332US : Z := Z.shiftl 0x02 3.
Definition INA226_SHUNT_CONV_TIME_588US : Z := Z.shiftl 0x03 3.
Definition INA226_SHUNT_CONV_TIME_2116US : Z := Z.shiftl 0x05 3.
Definition INA226_SHUNT_CONV_TIME_4156US : Z := Z.shiftl 0x06 3.
Definition INA226_SHUNT_CONV_TIME_8244US : Z := Z.shiftl 0x07 3.
(* VBUSCT: bus voltage conversion time (3-bit) *)
Definition INA226_BUS_CONV_TIME_140US : Z := Z.shiftl 0x00 6.
Definition INA226_BUS_CONV_TIME_204US : Z := Z.shiftl 0x01 6.
Definition INA226_BUS_CONV_TIME_332US : Z := Z.shiftl 0x02 6.
Definition INA226_BUS_CONV_TIME_588US : Z := Z.shiftl 0x03 6.
Definition INA226_BUS_CONV_TIME_2116US : Z := Z.shiftl 0x05 6.
Definition INA226_BUS_CONV_TIME_4156US : Z := Z.shiftl 0x06 6.
Definition INA226_BUS_CONV_TIME_8244US : Z := Z.shiftl 0x07 6.
(* AVG: averaging mode (3-bit) *)
Definition INA226_AVERAGES_1 : Z := Z.shiftl 0x00 9.
Definition INA226_AVERAGES_4 : Z := Z.shiftl 0x01 9.
Definition INA226_AVERAGES_64 : Z := Z.shiftl 0x03 9.
Definition INA226_AVERAGES_128 : Z := Z.shiftl 0x04 9.
Definition INA226_AVERAGES_256 : Z := Z.shiftl 0x05 9.
Definition INA226_AVERAGES_512 : Z := Z.shiftl 0x06 9.
Definition INA226_AVERAGES_1024 : Z := Z.shiftl 0x07 9.

(** The constants of each field, in the order of the source. *)
Definition MODE_constants : list Z :=
  [ INA226_MODE_POWER_DOWN; INA226_MODE_SHUNT_TRIG; INA226_MODE_BUS_TRIG;
    INA226_MODE_SHUNT_BUS_TRIG; INA226_MODE_ADC_OFF; INA226_MODE_SHUNT_CONT;
    INA226_MODE_BUS_CONT; INA226_MODE_SHUNT_BUS_CONT ].

Definition SHUNT_CONV_TIME_constants : list Z :=
  [ INA226_SHUNT_CONV_TIME_140US; INA226_SHUNT_CONV_TIME_204US;
    INA226_SHUNT_CONV_TIME_332US; INA226_SHUNT_CONV_TIME_588US;
    INA226_SHUNT_CONV_TIME_1100US; INA226_SHUNT_CONV_TIME_2116US;
    INA226_SHUNT_CONV_TIME_4156US; INA226_SHUNT_CONV_TIME_8244US ].

Definition BUS_CONV_TIME_constants : list Z :=
  [ INA226_BUS_CONV_TIME_140US; INA226_BUS_CONV_TIME_204US;
    INA226_BUS_CONV_TIME_332US; INA226_BUS_CONV_TIME_588US;
    INA226_BUS_CONV_TIME_1100US; INA226_BUS_CONV_TIME_2116US;
    INA226_BUS_CONV_TIME_4156US; INA226_BUS_CONV_TIME_8244US ].

Definition AVERAGES_constants : list Z :=
  [ INA226_AVERAGES_1; INA226_AVERAGES_4; INA226_AVERAGES_16;
    INA226_AVERAGES_64; INA226_AVERAGES_128; INA226_AVERAGES_256;
    INA226_AVERAGES_512; INA226_AVERAGES_1024 ].

(** The three-bit field of a configuration word that starts at bit [low]. *)
Definition field (low : Z) (word : Z) : Z := Z.land (Z.shiftr word low) 7.

Definition ina226I2CAddress : Z := 0x40.

Definition zero_LoadSet : LoadSet :=
  {| rShunt := 0; iMax := 0; vBusMax := 0; vShuntMax := 0 |}.

(** [NewINA226Driver]: [defaultName] is what [gobot.DefaultName("INA226")]
    returned.  The connection is nil and the load set zero.  The connector
    and the [Config] the driver also holds are arguments of [Start], the one
    method that uses them. *)
Definition NewINA226Driver (defaultName : string) : INA226Driver :=
  {| name := defaultName; connection := None; loadSet := zero_LoadSet |}.

(** Name returns the name of the device. *)
Definition Name (i : INA226Driver) : string := name i.

(** SetName sets the name of the device. *)
Definition SetName (n : string) (i : INA226Driver) : INA226Driver :=
  {| name := n; connection := connection i; loadSet := loadSet i |}.

(** The interfaces [Connector] and [Config] of package [i2c], as far as
    [Start] calls them.  [GetConnection] answers with a connection (or
    nil) and the message of its error, if any. *)
Record Connector : Type :=
  { connector_GetDefaultBus : Z;
    connector_GetConnection : Z → Z → option Connection * option string }.

Record Config : Type :=
  { GetBusOrDefault : Z → Z;
    GetAddressOrDefault : Z → Z }.

Definition assign_connection (conn : option Connection) (i : INA226Driver)
  : INA226Driver :=
  {| name := name i; connection := conn; loadSet := loadSet i |}.

(** Start initializes the INA3221.  The connection is assigned whatever
    error comes with it, and the result of [Configure] is dropped. *)
Definition Start (connector : Connector) (config : Config)
  : prog INA226Driver (option error) :=
  let bus := GetBusOrDefault config (connector_GetDefaultBus connector) in
  let address := GetAddressOrDefault config ina226I2CAddress in
  let '(conn, err) := connector_GetConnection connector address bus in
  _ ← prog_modify (assign_connection conn);
  match err with
  | Some msg => mret (Some (BusError msg))
  | None =>
      _ ← Configure [];
      mret None
  end.

(** Halt halts the device. *)
Definition Halt : prog INA226Driver (option error) := mret None.

Definition readConfigurationRegister : prog INA226Driver (Z * option error) :=
  '(confReg, err) ← readRegister16 CONFIG_REG;
  match err with
  | Some e => mret (0, Some e)
  | None => mret (confReg, None)
  end.

Definition ReadManufacturerRegister : prog INA226Driver (Z * option error) :=
  '(confReg, err) ← readRegister16 MANUFACTURERID_REG;
  match err with
  | Some e => mret (0, Some e)
  | None => mret (confReg, None)
  end.

(** [first] and then [second], whatever [first] returned. *)
Definition and_then {A B} (first : prog INA226Driver A)
  (second : prog INA226Driver B) : prog INA226Driver B :=
  _ ← first; second.

End INA226.

(** ** platforms/nanopineo/nanopi_neo_adaptor.go *)

Module NanoPiNeo.

Record sysfsPin : Type :=
  { pin : Z;
    pwmPin : Z }.

(** The zero value of [sysfsPin], which indexing a map gives for a missing
    key. *)
Definition sysfsPin_zero : sysfsPin := {| pin := 0; pwmPin := 0 |}.

(** The package-level pin table. *)
Definition pins : gmap string sysfsPin :=
  list_to_map
    [ ("GPIOG11", {| pin := 203; pwmPin := -1 |});
      ("GPIOC0", {| pin := 64; pwmPin := -1 |});
      ("GPIOC1", {| pin := 65; pwmPin := -1 |});
      ("GPIOC2", {| pin := 66; pwmPin := -1 |});
      ("GPIOC3", {| pin := 67; pwmPin := -1 |});
      ("GPIOA6", {| pin := 6; pwmPin := -1 |});
      ("GPIOA2", {| pin := 14; pwmPin := -1 |});
      ("GPIOA3", {| pin := 16; pwmPin := -1 |}) ].

(** Errors: those of sysfs, passed on as they are; the adaptor's own; and
    the aggregate that [multierror.Append] builds. *)
Inductive error : Type :=
| SysfsError (msg : string)
| BusOutOfRange (bus : Z)
| NotAPWMPin
| NotAValidPin
| MultiError (errs : list error).

(** [multierror.Append(err, e)] (github.com/hashicorp/go-multierror): the
    aggregate of [err] extended by [e]; an aggregate on either side is
    flattened. *)
Definition errors_of (e : error) : list error :=
  match e with
  | MultiError errs => errs
  | _ => [e]
  end.

Definition multierror_Append (err : option error) (e : error) : error :=
  match err with
  | None => MultiError (errors_of e)
  | Some err0 => MultiError (errors_of err0 ++ errors_of e)
  end.

(** *** sysfs

    The handles of package [sysfs] name a kernel object; their methods act
    on the kernel's files.  The kernel is the environment: it records the
    calls and answers each one knowing the earlier ones. *)
Record sysfs_DigitalPin : Type := { gpio : Z }.          (* sysfs.NewDigitalPin(gpio) *)
Record sysfs_PWMPin : Type := { channel : Z }.           (* sysfs.NewPWMPin(channel) *)
Record sysfs_I2cDevice : Type := { location : string }.  (* sysfs.NewI2cDevice(location) *)

(** [i2c.NewConnection(bus, address)] *)
Record I2cConnection : Type :=
  { conn_bus : option sysfs_I2cDevice;
    conn_address : Z }.

Inductive sysfsOp : Type :=
| DigitalExport (gpio : Z)
| DigitalUnexport (gpio : Z)
| DigitalDirection (gpio : Z) (dir : string)
| PwmExport (channel : Z)
| PwmUnexport (channel : Z)
| PwmEnable (channel : Z) (enable : bool)
| PwmInvertPolarity (channel : Z) (invert : bool)
| PwmSetPeriod (channel : Z) (period : Z)
| PwmSetDutyCycle (channel : Z) (duty : Z)
| I2cOpen (location : string)
| I2cClose (location : string).

Record Kernel : Type :=
  { calls : list sysfsOp;
    (* the message of the error the call returns, if any *)
    reply : list sysfsOp → sysfsOp → option string }.

(** Adaptor represents a Gobot Adaptor for a Nano pi Neo.  The maps hold
    pointers, so a stored value may be [nil]; reading a missing key gives
    [nil] too.  A [nil] map reads like an empty one, and [pinmap] is only
    ever read.  The mutex is left out: the model is sequential. *)
Record Adaptor : Type :=
  { name : string;
    board : string;
    pinmap : gmap string sysfsPin;
    digitalPins : gmap Z (option sysfs_DigitalPin);
    pwmPins : gmap Z (option sysfs_PWMPin);
    i2cBuses : list (option sysfs_I2cDevice) }.   (* [2]i2c.I2cDevice *)

Record World : Type :=
  { adaptor : Adaptor;
    kernel : Kernel }.

Definition sys_call (op : sysfsOp) : prog World (option error) :=
  λ w, Normal (SysfsError <$> reply (kernel w) (calls (kernel w)) op,
               {| adaptor := adaptor w;
                  kernel := {| calls := calls (kernel w) ++ [op];
                               reply := reply (kernel w) |} |}).

Definition get_adaptor : prog World Adaptor :=
  λ w, Normal (adaptor w, w).

Definition modify_adaptor (f : Adaptor → Adaptor) : prog World unit :=
  λ w, Normal (tt, {| adaptor := f (adaptor w); kernel := kernel w |}).

Definition set_digitalPin (i : Z) (p : option sysfs_DigitalPin) (c : Adaptor) : Adaptor :=
  {| name := name c; board := board c; pinmap := pinmap c;
     digitalPins := <[i := p]> (digitalPins c);
     pwmPins := pwmPins c; i2cBuses := i2cBuses c |}.

Definition set_pwmPin (i : Z) (p : option sysfs_PWMPin) (c : Adaptor) : Adaptor :=
  {| name := name c; board := board c; pinmap := pinmap c;
     digitalPins := digitalPins c;
     pwmPins := <[i := p]> (pwmPins c); i2cBuses := i2cBuses c |}.

Definition set_i2cBus (i : nat) (d : option sysfs_I2cDevice) (c : Adaptor) : Adaptor :=
  {| name := name c; board := board c; pinmap := pinmap c;
     digitalPins := digitalPins c; pwmPins := pwmPins c;
     i2cBuses := <[i := d]> (i2cBuses c) |}.

(** [m[k]] on a map of pointers. *)
Definition map_index {A} (m : gmap Z (option A)) (k : Z) : option A :=
  default None (m !! k).

(** NewAdaptor creates a Nano pi Neo Adaptor.  [defaultName] is what
    [gobot.DefaultName("Nano pi Neo")] returned.  [pinmap] is left [nil]
    (the call of [setPins] is commented out). *)
Definition NewAdaptor (defaultName : string) : Adaptor :=
  {| name := defaultName;
     board := "nanopi-neo";
     pinmap := ∅;
     digitalPins := ∅;
     pwmPins := ∅;
     i2cBuses := [None; None] |}.

(** One step of a [for ... range] loop that collects errors: [call] is made
    and its error, if any, appended to [err]. *)
Definition collect (call : sysfsOp) (err : option error)
  : prog World (option error) :=
  e ← sys_call call;
  match e with
  | Some e => mret (Some (multierror_Append err e))
  | None => mret err
  end.

Fixpoint release_digitalPins (l : list (Z * option sysfs_DigitalPin))
  (err : option error) : prog World (option error) :=
  match l with
  | [] => mret err
  | (_, None) :: l => release_digitalPins l err
  | (_, Some p) :: l =>
      err ← collect (DigitalUnexport (gpio p)) err;
      release_digitalPins l err
  end.

Fixpoint release_pwmPins (l : list (Z * option sysfs_PWMPin))
  (err : option error) : prog World (option error) :=
  match l with
  | [] => mret err
  | (_, None) :: l => release_pwmPins l err
  | (_, Some p) :: l =>
      err ← collect (PwmEnable (channel p) false) err;
      err ← collect (PwmUnexport (channel p)) err;
      release_pwmPins l err
  end.

Fixpoint release_i2cBuses (l : list (option sysfs_I2cDevice))
  (err : option error) : prog World (option error) :=
  match l with
  | [] => mret err
  | None :: l => release_i2cBuses l err
  | Some bus :: l =>
      err ← collect (I2cClose (location bus)) err;
      release_i2cBuses l err
  end.

(** Finalize closes connection to board and pins.  Go leaves the order in
    which [range] visits a map unspecified, so the two orders are
    arguments: [Finalize_in] is the body run with the digital pins visited
    as [ds] and the PWM pins as [ps]. *)
Definition Finalize_in (ds : list (Z * option sysfs_DigitalPin))
  (ps : list (Z * option sysfs_PWMPin)) : prog World (option error) :=
  err ← release_digitalPins ds None;
  err ← release_pwmPins ps err;
  c ← get_adaptor;
  release_i2cBuses (i2cBuses c) err.

(** A run of [Finalize]: the body on some enumeration of each map. *)
Definition Finalize_run (w : World) (res : outcome (option error * World)) : Prop :=
  ∃ ds ps,
    ds ≡ₚ map_to_list (digitalPins (adaptor w)) ∧
    ps ≡ₚ map_to_list (pwmPins (adaptor w)) ∧
    res = Finalize_in ds ps w.

(** GetConnection returns a connection to a device on a specified bus.
    Valid bus number is [0..1] which corresponds to /dev/i2c-0 and
    /dev/i2c-1.  [sysfs.NewI2cDevice] returns the device it allocated also
    when opening fails, so the slot is set either way. *)
Definition GetConnection (address bus : Z)
  : prog World (option I2cConnection * option error) :=
  if (bus <? 0) || (bus >? 2) then
    mret (None, Some (BusOutOfRange bus))
  else
    c ← get_adaptor;
    match i2cBuses c !! Z.to_nat bus with
    | None => prog_panic (IndexOutOfRange bus (length (i2cBuses c)))
    | Some slot =>
        err ← match slot with
              | Some _ => mret None
              | None =>
                  let path := "/dev/i2c-" +:+ pretty bus in
                  err ← sys_call (I2cOpen path);
                  _ ← modify_adaptor
                        (set_i2cBus (Z.to_nat bus) (Some {| location := path |}));
                  mret err
              end;
        c ← get_adaptor;
        match i2cBuses c !! Z.to_nat bus with
        | None => prog_panic (IndexOutOfRange bus (length (i2cBuses c)))
        | Some dev =>
            mret (Some {| conn_bus := dev; conn_address := address |}, err)
        end
    end.

(** GetDefaultBus returns the default i2c bus for this platform *)
Definition GetDefaultBus : Z := 0.

Definition translatePin (pin_name : string) : Z * option error :=
  match pins !! pin_name with
  | Some val => (pin val, None)
  | None => (0, Some NotAValidPin)
  end.

(** DigitalPin returns matched digitalPin for specified values *)
Definition DigitalPin (pin_name dir : string)
  : prog World (option sysfs_DigitalPin * option error) :=
  let '(i, err) := translatePin pin_name in
  match err with
  | Some e => mret (None, Some e)
  | None =>
      c ← get_adaptor;
      err ← match map_index (digitalPins c) i with
            | Some _ => mret None
            | None =>
                _ ← modify_adaptor (set_digitalPin i (Some {| gpio := i |}));
                sys_call (DigitalExport i)
            end;
      match err with
      | Some e => mret (None, Some e)
      | None =>
          c ← get_adaptor;
          match map_index (digitalPins c) i with
          | None => prog_panic NilDereference
          | Some cached =>
              err ← sys_call (DigitalDirection (gpio cached) dir);
              match err with
              | Some e => mret (None, Some e)
              | None =>
                  c ← get_adaptor;
                  mret (map_index (digitalPins c) i, None)
              end
          end
      end
  end.

(** The idiom [if err = call; err != nil { return }]: on an error the
    function returns [on_error e], otherwise it goes on with [rest]. *)
Definition or_return {A} (call : prog World (option error))
  (on_error : error → A) (rest : prog World A) : prog World A :=
  err ← call;
  match err with
  | Some e => mret (on_error e)
  | None => rest
  end.

(** PWMPin returns matched pwmPin for specified pin number *)
Definition PWMPin (pin_name : string)
  : prog World (option sysfs_PWMPin * option error) :=
  c ← get_adaptor;
  let sysPin := default sysfsPin_zero (pinmap c !! pin_name) in
  if decide (pwmPin sysPin ≠ -1) then
    let found : prog World (option sysfs_PWMPin * option error) :=
      c ← get_adaptor;
      mret (map_index (pwmPins c) (pwmPin sysPin), None) in
    match map_index (pwmPins c) (pwmPin sysPin) with
    | Some _ => found
    | None =>
        let newPin := {| channel := pwmPin sysPin |} in
        let failed e : option sysfs_PWMPin * option error := (None, Some e) in
        or_return (sys_call (PwmExport (channel newPin))) failed (
        (* Make sure pwm is disabled when setting polarity *)
        or_return (sys_call (PwmEnable (channel newPin) false)) failed (
        or_return (sys_call (PwmInvertPolarity (channel newPin) false)) failed (
        or_return (sys_call (PwmEnable (channel newPin) true)) failed (
        or_return (sys_call (PwmSetPeriod (channel newPin) 10000000)) failed (
        _ ← modify_adaptor (set_pwmPin (pwmPin sysPin) (Some newPin));
        found)))))
    end
  else
    mret (None, Some NotAPWMPin).

(** Modelled from the spec: [gobot.FromScale] and [gobot.ToScale] (package
    gobot's utilities, not among the sources).  The spec has the duty cycle
    "linearly mapped from the angle range [0,180] to a pulse-width range
    [0.5 ms, 2.0 ms] expressed in nanoseconds": [FromScale] takes the input
    from [min, max] to [0, 1], [ToScale] takes [0, 1] to [min, max]. *)
Definition FromScale (input min max : float) : float :=
  ((input - min) / (max - min))%float.

Definition ToScale (input min max : float) : float :=
  (input * (max - min) + min)%float.

(** Duty cycle is in nanos.  Both are untyped constant expressions,
    [0.0005 * 1e9] and [0.0020 * 1e9], which Go evaluates exactly. *)
Definition minDuty : float := 500000%float.
Definition maxDuty : float := 2000000%float.

Section WithPlatform.
Context `{FloatConv}.

(** The duty cycle [ServoWrite] computes for [angle] (a byte). *)
Definition servo_duty (angle : Z) : Z :=
  uint_of_float 32 (ToScale (FromScale (float_of_Z angle) 0 180) minDuty maxDuty).

(** ServoWrite writes a servo signal to the specified pin *)
Definition ServoWrite (pin_name : string) (angle : Z)
  : prog World (option error) :=
  '(pwmPin, err) ← PWMPin pin_name;
  match err with
  | Some e => mret (Some e)
  | None =>
      match pwmPin with
      | None => prog_panic NilDereference
      | Some p => sys_call (PwmSetDutyCycle (channel p) (servo_duty angle))
      end
  end.

End WithPlatform.

(** *** Vocabulary of the theorems *)

(** The world [w] once the calls [ops] have been made. *)
Definition with_calls (ops : list sysfsOp) (w : World) : World :=
  {| adaptor := adaptor w;
     kernel := {| calls := calls (kernel w) ++ ops; reply := reply (kernel w) |} |}.

(** The world [w] with its adaptor changed by [f]. *)
Definition with_adaptor (f : Adaptor → Adaptor) (w : World) : World :=
  {| adaptor := f (adaptor w); kernel := kernel w |}.

(** The errors a kernel that answers by [rep] gives when [ops] are called in
    turn after the calls [h], in the order of the calls. *)
Fixpoint failures (rep : list sysfsOp → sysfsOp → option string)
  (h ops : list sysfsOp) : list error :=
  match ops with
  | [] => []
  | op :: ops =>
      match rep h op with
      | Some msg => SysfsError msg :: failures rep (h ++ [op]) ops
      | None => failures rep (h ++ [op]) ops
      end
  end.

(** No error for no failure, otherwise the aggregate of all of them. *)
Definition aggregate (errs : list error) : option error :=
  match errs with
  | [] => None
  | _ :: _ => Some (MultiError errs)
  end.

(** What [NewAdaptor] establishes and every operation keeps: [pinmap] is
    nil and the bus table has its two slots. *)
Definition well_formed (c : Adaptor) : Prop :=
  pinmap c = ∅ ∧ length (i2cBuses c) = 2%nat.

(** What releasing every handle takes: unexport for a digital pin, disable
    then unexport for a PWM pin, close for a bus; nothing for a [nil]
    entry. *)
Definition digital_releases (ds : list (Z * option sysfs_DigitalPin)) : list sysfsOp :=
  ds ≫= λ entry,
    match entry.2 with
    | Some p => [DigitalUnexport (gpio p)]
    | None => []
    end.

Definition pwm_releases (ps : list (Z * option sysfs_PWMPin)) : list sysfsOp :=
  ps ≫= λ entry,
    match entry.2 with
    | Some p => [PwmEnable (channel p) false; PwmUnexport (channel p)]
    | None => []
    end.

Definition bus_releases (bs : list (option sysfs_I2cDevice)) : list sysfsOp :=
  bs ≫= λ entry,
    match entry with
    | Some bus => [I2cClose (location bus)]
    | None => []
    end.

(** *** The rest of the adaptor *)

(** Connect initializes the board *)
Definition Connect : prog World (option error) := mret None.

(** The directions of package [sysfs] (its constants [IN] and [OUT], not
    among the sources): the words the kernel's direction file takes. *)
Definition sysfs_IN : string := "in".
Definition sysfs_OUT : string := "out".

Section PinMethods.

(** [Read] and [Write] of a [sysfs.DigitalPin] belong to package [sysfs];
    what they do to the kernel and what they return is left open. *)
Variable pin_Read : sysfs_DigitalPin → prog World (Z * option error).
Variable pin_Write : sysfs_DigitalPin → Z → prog World (option error).

(** DigitalRead reads digital value from the specified pin. *)
Definition DigitalRead (pin_name : string) : prog World (Z * option error) :=
  '(sysfsPin, err) ← DigitalPin pin_name sysfs_IN;
  match err with
  | Some e => mret (0, Some e)
  | None =>
      match sysfsPin with
      | None => prog_panic NilDereference
      | Some p => pin_Read p
      end
  end.

(** DigitalWrite writes digital value to the specified pin. *)
Definition DigitalWrite (pin_name : string) (val : Z) : prog World (option error) :=
  '(sysfsPin, err) ← DigitalPin pin_name sysfs_OUT;
  match err with
  | Some e => mret (Some e)
  | None =>
      match sysfsPin with
      | None => prog_panic NilDereference
      | Some p => pin_Write p val
      end
  end.

End PinMethods.

(** [first] and then [second], whatever [first] returned. *)
Definition and_then {A B} (first : prog World A) (second : prog World B)
  : prog World B :=
  _ ← first; second.

End NanoPiNeo.

(** ** Concrete environments

    Devices, kernels and a platform on which the programs above can be run;
    the examples that accompany the theorems are stated on them. *)

Module Bench.

(** *** A platform *)

(** Out-of-range conversions keep the low bits of the truncated value, and
    give 0 for infinities and NaN. *)
Definition wrapping_conv : FloatConv :=
  {| conv_unrepresentable := λ f, default 0 (float_trunc f) |}.

(** [10^k <= m * 2^e], decided on integers. *)
Definition pow10_le (k : Z) (m : positive) (e : Z) : bool :=
  (if 0 <=? k then 10 ^ k else 1) * (if e <? 0 then 2 ^ (- e) else 1)
  <=? Z.pos m * (if 0 <=? e then 2 ^ e else 1) * (if k <? 0 then 10 ^ (- k) else 1).

Fixpoint decade_from (fuel : nat) (k : Z) (m : positive) (e : Z) : Z :=
  match fuel with
  | O => k
  | S fuel => if pow10_le k m e then k else decade_from fuel (k - 1) m e
  end.

(** An idealised [math.Log10]: the exact integer part of the logarithm of a
    positive finite float (all that [Calibrate] uses of it, through
    [Floor]); the special cases are those of package [math]. *)
Definition ideal_Log10 (x : float) : float :=
  match Prim2SF x with
  | S754_zero _ => neg_infinity
  | S754_infinity false => infinity
  | S754_finite false m e => float_of_Z (decade_from 640 309 m e)
  | _ => nan
  end.

(** [math.Floor]: exact.  A float with a negative exponent is below [2^53]
    in magnitude, so its floor converts back exactly. *)
Definition exact_Floor (x : float) : float :=
  match Prim2SF x with
  | S754_finite _ _ e =>
      if 0 <=? e then x else float_of_Z (default 0 (float_floor x))
  | _ => x
  end.

(** [math.Ceil] is [-Floor(-x)]. *)
Definition exact_Ceil (x : float) : float := (- exact_Floor (- x))%float.

(** [math.Pow] for an integral exponent, by repeated multiplication (exact
    for [10^k] with [0 <= k <= 22]); NaN elsewhere. *)
Definition iterated_Pow (x y : float) : float :=
  match float_trunc y with
  | Some n =>
      if negb (float_of_Z n =? y)%float then nan
      else if 0 <=? n then Z.iter n (λ acc, acc * x)%float 1%float
      else (1 / Z.iter (- n) (λ acc, acc * x)%float 1)%float
  | None => nan
  end.

Definition ideal_math : MathPkg :=
  {| Log10 := ideal_Log10; Pow := iterated_Pow;
     Floor := exact_Floor; Ceil := exact_Ceil |}.

(** *** INA226 devices *)

(** Accepts every write and answers every read with [data]. *)
Definition steady_device (data : list Z) : INA226.Device :=
  {| INA226.write_reply := λ _ _, None;
     INA226.read_reply := λ _ _, (data, None) |}.

(** Refuses register writes (address and two data bytes) but accepts the
    one-byte writes that select a register; reads deliver [data]. *)
Definition write_protected_device (data : list Z) : INA226.Device :=
  {| INA226.write_reply := λ _ buf,
       if decide (length buf = 3%nat)
       then Some "remote I/O error" else None;
     INA226.read_reply := λ _ _, (data, None) |}.

Definition zero_LoadSet : INA226.LoadSet :=
  {| INA226.rShunt := 0; INA226.iMax := 0;
     INA226.vBusMax := 0; INA226.vShuntMax := 0 |}.

(** A driver after [Start] on [dev], before any calibration. *)
Definition started (dev : INA226.Device) : INA226.INA226Driver :=
  {| INA226.name := "INA226-1";
     INA226.connection := Some {| INA226.history := []; INA226.device := dev |};
     INA226.loadSet := zero_LoadSet |}.

(** *** Kernels *)

#[global] Instance sysfsOp_eq_dec : EqDecision NanoPiNeo.sysfsOp.
Proof. solve_decision. Defined.

(** Every sysfs call succeeds. *)
Definition obliging_kernel : NanoPiNeo.Kernel :=
  {| NanoPiNeo.calls := []; NanoPiNeo.reply := λ _ _, None |}.

(** The call [bad] fails with [msg], every other call succeeds. *)
Definition kernel_failing (bad : NanoPiNeo.sysfsOp) (msg : string) : NanoPiNeo.Kernel :=
  {| NanoPiNeo.calls := [];
     NanoPiNeo.reply := λ _ op,
       if decide (op = bad) then Some msg else None |}.

Definition fresh_world (k : NanoPiNeo.Kernel) : NanoPiNeo.World :=
  {| NanoPiNeo.adaptor := NanoPiNeo.NewAdaptor "Nano pi Neo-1";
     NanoPiNeo.kernel := k |}.

(** The world a program leaves behind ([w] itself if it panics). *)
Definition world_after {A} (m : prog NanoPiNeo.World A) (w : NanoPiNeo.World)
  : NanoPiNeo.World :=
  match m w with
  | Normal (_, w') => w'
  | Panicked _ => w
  end.

(** Two digital pins and one PWM pin created on a fresh adaptor, on a
    kernel that will refuse to unexport GPIO 203. *)
Definition three_pins : NanoPiNeo.World :=
  world_after (NanoPiNeo.PWMPin "GPIOA6")
    (world_after (NanoPiNeo.DigitalPin "GPIOC0" "out")
       (world_after (NanoPiNeo.DigitalPin "GPIOG11" "in")
          (fresh_world (kernel_failing (NanoPiNeo.DigitalUnexport 203)
                                       "device or resource busy")))).

End Bench.

(** ** A chip that keeps what is written

    A device that answers like a register file: a write of one byte or
    more selects the register named by the first byte, a write of three
    bytes also stores the other two in it, and a read delivers the two
    bytes of the selected register (zero if never written).  Every call
    succeeds. *)

Module Chip.

Fixpoint selected (h : list INA226.busOp) (ptr : Z) : Z :=
  match h with
  | [] => ptr
  | INA226.BusWrite (reg :: _) :: h => selected h reg
  | _ :: h => selected h ptr
  end.

Fixpoint stored (reg : Z) (h : list INA226.busOp) (val : list Z) : list Z :=
  match h with
  | [] => val
  | INA226.BusWrite [r; hi; lo] :: h =>
      stored reg h (if r =? reg then [hi; lo] else val)
  | _ :: h => stored reg h val
  end.

Definition register_file : INA226.Device :=
  {| INA226.write_reply := λ _ _, None;
     INA226.read_reply := λ h _, (stored (selected h 0) h [0; 0], None) |}.

(** A connector that hands out a fresh connection to the register file, and
    one whose bus cannot be opened. *)
Definition connector_to (dev : INA226.Device) : INA226.Connector :=
  {| INA226.connector_GetDefaultBus := 0;
     INA226.connector_GetConnection := λ _ _,
       (Some {| INA226.history := []; INA226.device := dev |}, None) |}.

Definition broken_connector : INA226.Connector :=
  {| INA226.connector_GetDefaultBus := 0;
     INA226.connector_GetConnection := λ _ bus,
       (None, Some ("Bus number " +:+ pretty bus +:+ " out of range")) |}.

(** A [Config] without overrides. *)
Definition default_config : INA226.Config :=
  {| INA226.GetBusOrDefault := λ d, d;
     INA226.GetAddressOrDefault := λ d, d |}.

End Chip.

(** * Theorems *)

(** ** Words and bytes *)

Section Words.
Import INA226.

Lemma lor_shiftl_byte (hi lo : Z) :
  is_byte lo → Z.lor (Z.shiftl hi 8) lo = hi * 256 + lo.
Proof.
  intros [Hlo0 Hlo].
  assert (Hland : Z.land (Z.shiftl hi 8) lo = 0).
  { apply Z.bits_inj'; intros n Hn.
    rewrite Z.land_spec, Z.bits_0.
    destruct (Z.lt_ge_cases n 8) as [Hlt | Hge].
    - rewrite Z.shiftl_spec_low by lia. reflexivity.
    - destruct (Z.eq_dec lo 0) as [-> | Hne].
      + rewrite Z.bits_0. apply andb_false_r.
      + rewrite (Z.bits_above_log2 lo n); [apply andb_false_r | lia |].
        assert (Z.log2 lo < 8) by (apply Z.log2_lt_pow2; lia).
        lia. }
  pose proof (Z.add_lor_land (Z.shiftl hi 8) lo) as Hadd.
  rewrite Hland, Z.add_0_r in Hadd. rewrite Hadd.
  rewrite Z.shiftl_mul_pow2 by lia. change (2 ^ 8) with 256. lia.
Qed.

Lemma log2_uint16 (a : Z) : is_uint16 a → Z.log2 a < 16.
Proof.
  intros [H0 H]. destruct (Z.eq_dec a 0) as [-> | Hne]; [reflexivity |].
  apply Z.log2_lt_pow2; lia.
Qed.

Lemma lor_uint16 (a b : Z) : is_uint16 a → is_uint16 b → is_uint16 (Z.lor a b).
Proof.
  intros Ha Hb.
  pose proof (log2_uint16 a Ha) as Hla. pose proof (log2_uint16 b Hb) as Hlb.
  destruct Ha as [Ha0 Ha], Hb as [Hb0 Hb].
  assert (Hor : 0 <= Z.lor a b) by (apply Z.lor_nonneg; lia).
  split; [exact Hor |].
  destruct (Z.eq_dec (Z.lor a b) 0) as [-> | Hne]; [lia |].
  change (Z.lor a b < 2 ^ 16). apply Z.log2_lt_pow2; [lia |].
  rewrite Z.log2_lor by lia. lia.
Qed.

Lemma foldl_lor_uint16 (confs : list Z) (acc : Z) :
  is_uint16 acc → Forall is_uint16 confs → is_uint16 (foldl Z.lor acc confs).
Proof.
  intros Hacc Hall. revert acc Hacc.
  induction Hall as [| conf confs Hconf _ IH]; intros acc Hacc; cbn.
  - exact Hacc.
  - apply IH, lor_uint16; assumption.
Qed.

(** The two bytes of a 16-bit word are its quotient and remainder by 256:
    most significant byte first. *)
Lemma wordToByteArray_big_endian (w : Z) :
  is_uint16 w → wordToByteArray w = [w `div` 256; w `mod` 256].
Proof.
  intros [H0 H]. unfold wordToByteArray, byte_of.
  rewrite Z.shiftr_div_pow2 by lia. change (2 ^ 8) with 256.
  rewrite (Z.mod_small (w `div` 256)); [reflexivity |].
  split; [apply Z.div_pos; lia | apply Z.div_lt_upper_bound; lia].
Qed.

Lemma word_bytes (w : Z) :
  is_uint16 w → is_byte (w `div` 256) ∧ is_byte (w `mod` 256).
Proof.
  intros [H0 H]. unfold is_byte. split.
  - split; [apply Z.div_pos; lia | apply Z.div_lt_upper_bound; lia].
  - apply Z.mod_pos_bound. lia.
Qed.

(** Reading back what [wordToByteArray] wrote gives the word. *)
Lemma word_of_buffer_wordToByteArray (w : Z) :
  is_uint16 w → word_of_buffer (wordToByteArray w) = w.
Proof.
  intros Hw. rewrite wordToByteArray_big_endian by assumption.
  unfold word_of_buffer. cbn.
  rewrite lor_shiftl_byte by (apply word_bytes; assumption).
  pose proof (Z.div_mod w 256). lia.
Qed.

Lemma word_of_buffer_bytes (b0 b1 : Z) :
  is_byte b0 → is_byte b1 →
  word_of_buffer [b0; b1] = b0 * 256 + b1 ∧ is_uint16 (b0 * 256 + b1).
Proof.
  intros Hb0 Hb1. unfold word_of_buffer. cbn.
  rewrite lor_shiftl_byte by assumption.
  unfold is_byte, is_uint16 in *. lia.
Qed.

Lemma fill_buffer_two_bytes (b0 b1 : Z) :
  is_byte b0 → is_byte b1 → fill_buffer 2 [b0; b1] = [b0; b1].
Proof.
  intros Hb0 Hb1. unfold fill_buffer, byte_of, is_byte in *. cbn.
  rewrite !Z.mod_small by lia. reflexivity.
Qed.

(** Whatever a [Read] of two bytes delivers, the buffer holds a 16-bit word;
    on two delivered bytes it is the first times 256 plus the second. *)
Lemma register_word (data : list Z) :
  is_uint16 (word_of_buffer (fill_buffer 2 data)) ∧
  (∀ b0 b1, data = [b0; b1] → is_byte b0 → is_byte b1 →
            word_of_buffer (fill_buffer 2 data) = b0 * 256 + b1).
Proof.
  assert (Hbyte : ∀ x, is_byte (byte_of x))
    by (intros x; apply Z.mod_pos_bound; lia).
  assert (Hzero : is_byte 0) by (split; vm_compute; congruence).
  assert (Hword : ∀ b0 b1, is_byte b0 → is_byte b1 →
                           is_uint16 (word_of_buffer [b0; b1])).
  { intros b0 b1 Hb0 Hb1.
    destruct (word_of_buffer_bytes b0 b1 Hb0 Hb1) as [-> Hrange]. exact Hrange. }
  split.
  - destruct data as [| x [| y rest]]; unfold fill_buffer; cbn;
      apply Hword; auto.
  - intros b0 b1 -> Hb0 Hb1. rewrite fill_buffer_two_bytes by assumption.
    apply (word_of_buffer_bytes b0 b1 Hb0 Hb1).
Qed.

Lemma uint_of_float_range `{FloatConv} (bits : Z) (f : float) :
  0 <= bits → 0 <= uint_of_float bits f < 2 ^ bits.
Proof.
  intros Hbits. unfold uint_of_float.
  assert (0 < 2 ^ bits) by (apply Z.pow_pos_nonneg; lia).
  destruct (float_trunc f) as [z |]; [| apply Z.mod_pos_bound; lia].
  destruct (0 <=? z) eqn:Hz0, (z <? 2 ^ bits) eqn:Hz; cbn;
    try (apply Z.mod_pos_bound; lia).
  apply Z.leb_le in Hz0. apply Z.ltb_lt in Hz. lia.
Qed.

Lemma representable_kept (bits z other : Z) :
  0 <= z < 2 ^ bits → (if (0 <=? z) && (z <? 2 ^ bits) then z else other) = z.
Proof.
  intros Hz.
  rewrite (proj2 (Z.leb_le 0 z)), (proj2 (Z.ltb_lt z (2 ^ bits))) by lia.
  reflexivity.
Qed.

(** Where the floor of a float is representable, the conversion yields it:
    truncation and floor agree from 0 upward. *)
Lemma uint_of_float_floor `{FloatConv} (bits : Z) (f : float) (z : Z) :
  float_floor f = Some z → 0 <= z < 2 ^ bits → uint_of_float bits f = z.
Proof.
  unfold uint_of_float, float_floor, float_trunc.
  destruct (Prim2SF f) as [s | s | | s m e]; try discriminate.
  - intros [= <-] Hz. apply representable_kept. exact Hz.
  - intros [= <-] Hz. cbv zeta in *.
    destruct (0 <=? e) eqn:He.
    + apply representable_kept. exact Hz.
    + assert (Hp : 0 < 2 ^ (- e)) by (apply Z.pow_pos_nonneg; lia).
      destruct s.
      * exfalso. assert (Z.neg m `div` 2 ^ (- e) < 0); [| lia].
        apply Z.div_lt_upper_bound; lia.
      * rewrite Z.quot_div_nonneg by lia.
        apply representable_kept. exact Hz.
Qed.

End Words.

(** ** The INA226 driver *)

Section Driver.
Import INA226.

Ltac run_prog :=
  unfold mbind, mret, prog_mbind, prog_mret, prog_bind, prog_ret,
    prog_get, prog_modify.

Lemma after_calls_connection (ops : list busOp) (c : Connection) (i : INA226Driver) :
  connection (after_calls ops c i)
  = Some {| history := history c ++ ops; device := device c |}.
Proof. reflexivity. Qed.

Lemma after_calls_loadSet (ops : list busOp) (c : Connection) (i : INA226Driver) :
  loadSet (after_calls ops c i) = loadSet i.
Proof. reflexivity. Qed.

Lemma after_calls_trace (ops : list busOp) (c : Connection) (i : INA226Driver) :
  connection i = Some c →
  bus_trace (after_calls ops c i) = bus_trace i ++ ops.
Proof. intros Hc. unfold bus_trace. rewrite Hc. reflexivity. Qed.

Lemma after_calls_twice (ops1 ops2 : list busOp) (c : Connection) (i : INA226Driver) :
  after_calls ops2 {| history := history c ++ ops1; device := device c |}
    (after_calls ops1 c i)
  = after_calls (ops1 ++ ops2) c i.
Proof. unfold after_calls, set_connection. cbn. rewrite app_assoc. reflexivity. Qed.

Lemma conn_Write_run (i : INA226Driver) (c : Connection) (buf : list Z) :
  connection i = Some c →
  conn_Write buf i
  = Normal (BusError <$> write_reply (device c) (history c) buf,
            after_calls [BusWrite buf] c i).
Proof. intros Hc. unfold conn_Write. rewrite Hc. reflexivity. Qed.

Lemma conn_Read_run (i : INA226Driver) (c : Connection) (len : nat) :
  connection i = Some c →
  conn_Read len i
  = Normal ((fill_buffer len (read_reply (device c) (history c) len).1,
             BusError <$> (read_reply (device c) (history c) len).2),
            after_calls [BusRead len] c i).
Proof.
  intros Hc. unfold conn_Read. rewrite Hc.
  destruct (read_reply (device c) (history c) len) as [data err]. reflexivity.
Qed.

(** A method that writes one register: a single [Write] of the address and
    the two bytes, whose error is the method's result. *)
Lemma write_register_run (i : INA226Driver) (c : Connection) (buf : list Z) :
  connection i = Some c →
  (err ← conn_Write buf;
   match err with
   | Some e => mret (Some e)
   | None => mret None
   end) i
  = Normal (BusError <$> write_reply (device c) (history c) buf,
            after_calls [BusWrite buf] c i).
Proof.
  intros Hc. run_prog. rewrite (conn_Write_run i c buf Hc).
  destruct (write_reply (device c) (history c) buf); reflexivity.
Qed.

(** The three ways [readRegister16] ends on a bound connection. *)
Lemma readRegister16_write_error (i : INA226Driver) (c : Connection)
  (reg : Z) (msg : string) :
  connection i = Some c →
  write_reply (device c) (history c) [reg] = Some msg →
  readRegister16 reg i
  = Normal ((0, Some (BusError msg)), after_calls [BusWrite [reg]] c i).
Proof.
  intros Hc Hw. unfold readRegister16. run_prog.
  rewrite (conn_Write_run i c [reg] Hc), Hw. reflexivity.
Qed.

Lemma readRegister16_read_error (i : INA226Driver) (c : Connection)
  (reg : Z) (data : list Z) (msg : string) :
  connection i = Some c →
  write_reply (device c) (history c) [reg] = None →
  read_reply (device c) (history c ++ [BusWrite [reg]]) 2 = (data, Some msg) →
  readRegister16 reg i
  = Normal ((0, Some (BusError msg)),
            after_calls [BusWrite [reg]; BusRead 2] c i).
Proof.
  intros Hc Hw Hr. unfold readRegister16. run_prog.
  rewrite (conn_Write_run i c [reg] Hc), Hw.
  change (BusError <$> None) with (@None error). cbv beta iota.
  rewrite (conn_Read_run _ _ 2 (after_calls_connection _ c i)).
  cbn [history device]. rewrite Hr, after_calls_twice. reflexivity.
Qed.

Lemma readRegister16_value (i : INA226Driver) (c : Connection)
  (reg : Z) (data : list Z) :
  connection i = Some c →
  write_reply (device c) (history c) [reg] = None →
  read_reply (device c) (history c ++ [BusWrite [reg]]) 2 = (data, None) →
  readRegister16 reg i
  = Normal ((word_of_buffer (fill_buffer 2 data), None),
            after_calls [BusWrite [reg]; BusRead 2] c i).
Proof.
  intros Hc Hw Hr. unfold readRegister16. run_prog.
  rewrite (conn_Write_run i c [reg] Hc), Hw.
  change (BusError <$> None) with (@None error). cbv beta iota.
  rewrite (conn_Read_run _ _ 2 (after_calls_connection _ c i)).
  cbn [history device]. rewrite Hr, after_calls_twice. reflexivity.
Qed.

(** A positive float is not [<= 0]. *)
Lemma positive_not_leb_zero (x : float) :
  (0 <? x)%float = true → (x <=? 0)%float = false.
Proof.
  rewrite ltb_spec, leb_spec. change (Prim2SF 0) with (S754_zero false).
  destruct (Prim2SF x) as [[|] | [|] | | [|] m e]; cbn; congruence.
Qed.

(** *** Configure *)

(** C4: for every list of configuration flags (the empty list too),
    [Configure] makes exactly one [Write], of exactly three bytes: the
    address 0x00 of the configuration register, then the high byte and the
    low byte of the bitwise OR of all flags.  Its result is that [Write]'s
    error. *)
Theorem Configure_writes_three_bytes (i : INA226Driver) (c : Connection)
  (confs : list Z) :
  connection i = Some c →
  Forall is_uint16 confs →
  let word := foldl Z.lor 0 confs in
  let buf := [0x00; word `div` 256; word `mod` 256] in
  is_uint16 word ∧
  is_byte (word `div` 256) ∧ is_byte (word `mod` 256) ∧
  word_of_buffer [word `div` 256; word `mod` 256] = word ∧
  length buf = 3%nat ∧
  Configure confs i
  = Normal (BusError <$> write_reply (device c) (history c) buf,
            after_calls [BusWrite buf] c i) ∧
  bus_trace (after_calls [BusWrite buf] c i) = bus_trace i ++ [BusWrite buf] ∧
  (confs = [] → buf = [0; 0; 0]).
Proof.
  intros Hc Hconfs word buf.
  assert (Hword : is_uint16 word).
  { apply foldl_lor_uint16; [unfold is_uint16; lia | exact Hconfs]. }
  destruct (word_bytes word Hword) as [Hhi Hlo].
  repeat split; try (apply Hword || apply Hhi || apply Hlo).
  - rewrite <- (wordToByteArray_big_endian word Hword).
    apply word_of_buffer_wordToByteArray, Hword.
  - unfold Configure. fold word.
    rewrite (wordToByteArray_big_endian word Hword).
    apply (write_register_run i c _ Hc).
  - apply after_calls_trace, Hc.
  - intros ->. reflexivity.
Qed.

Lemma Configure_writes_three_bytes_witness :
  let i := Bench.started (Bench.steady_device []) in
  Configure [INA226_MODE_SHUNT_BUS_CONT; INA226_SHUNT_CONV_TIME_1100US;
             INA226_BUS_CONV_TIME_1100US; INA226_AVERAGES_16] i
  = Normal (None,
            after_calls [BusWrite [0x00; 0x05; 0x27]]
              {| history := []; device := Bench.steady_device [] |} i).
Proof.
  refine (proj1 (proj2 (proj2 (proj2 (proj2 (proj2
    (Configure_writes_three_bytes
       (Bench.started (Bench.steady_device []))
       {| history := []; device := Bench.steady_device [] |}
       [INA226_MODE_SHUNT_BUS_CONT; INA226_SHUNT_CONV_TIME_1100US;
        INA226_BUS_CONV_TIME_1100US; INA226_AVERAGES_16]
       eq_refl _))))))).
  repeat apply List.Forall_cons; try apply List.Forall_nil;
    vm_compute; split; congruence.
Defined.

(** X3: [Reset] makes one [Write] of three bytes, the address 0x00 of the
    configuration register followed by 0x80 0x00, the reset bit (bit 15)
    alone; its result is that [Write]'s error. *)
Theorem Reset_writes_reset_bit (i : INA226Driver) (c : Connection) :
  connection i = Some c →
  let buf := [0x00; 0x80; 0x00] in
  word_of_buffer [0x80; 0x00] = Z.shiftl 1 15 ∧
  Reset i = Normal (BusError <$> write_reply (device c) (history c) buf,
                    after_calls [BusWrite buf] c i).
Proof.
  intros Hc buf. split; [reflexivity |].
  unfold Reset. apply (write_register_run i c buf Hc).
Qed.

Lemma Reset_writes_reset_bit_witness :
  let dev := Bench.steady_device [] in
  Reset (Bench.started dev)
  = Normal (None, after_calls [BusWrite [0x00; 0x80; 0x00]]
                    {| history := []; device := dev |} (Bench.started dev)).
Proof.
  exact (proj2 (Reset_writes_reset_bit (Bench.started (Bench.steady_device []))
                  {| history := []; device := Bench.steady_device [] |}
                  eq_refl)).
Defined.

(** *** Calibrate *)

Lemma set_loadSet_connection (rShuntValue iMaxValue : float) (i : INA226Driver) :
  connection (set_iMax iMaxValue (set_rShunt rShuntValue i)) = connection i.
Proof. reflexivity. Qed.

Lemma set_loadSet_loadSet (rShuntValue iMaxValue : float) (i : INA226Driver) :
  loadSet (set_iMax iMaxValue (set_rShunt rShuntValue i))
  = calibrated_LoadSet rShuntValue iMaxValue i.
Proof. reflexivity. Qed.

Lemma calibrationValue_uint16 `{MathPkg} `{FloatConv} (ls : LoadSet) :
  is_uint16 (calibrationValue ls).
Proof. unfold calibrationValue. apply (uint_of_float_range 16). lia. Qed.

(** [Calibrate] on a bound connection: both values are stored, then one
    [Write] is made, whose error is the result. *)
Lemma Calibrate_run `{MathPkg} `{FloatConv} (i : INA226Driver) (c : Connection)
  (rShuntValue iMaxValue : float) :
  connection i = Some c →
  let cv := calibrationValue (calibrated_LoadSet rShuntValue iMaxValue i) in
  let buf := [CALIBRATION_REG; cv `div` 256; cv `mod` 256] in
  Calibrate rShuntValue iMaxValue i
  = Normal (BusError <$> write_reply (device c) (history c) buf,
            after_calls [BusWrite buf] c
              (set_iMax iMaxValue (set_rShunt rShuntValue i))).
Proof.
  intros Hc cv buf. unfold Calibrate.
  run_prog. cbv beta iota. rewrite set_loadSet_loadSet. fold cv.
  rewrite (wordToByteArray_big_endian cv) by apply calibrationValue_uint16.
  apply (write_register_run _ c buf). exact Hc.
Qed.

(** C1: [Calibrate] scales [iMax / 32768] to micro-amps, rounds it up to one
    significant digit as [Ceil(mantissa) * 10^Floor(Log10 currentLSB)],
    converts back to amps, converts [0.00512 / (roundedLSB * rShunt)] to a
    [uint16], and writes exactly that value, high byte first, to the
    calibration register 0x05 in a single [Write]; both arguments are
    stored.  The converted value is the floor of the quotient whenever that
    floor fits 16 bits. *)
Theorem Calibrate_writes_calibration_value `{MathPkg} `{FloatConv}
  (i : INA226Driver) (c : Connection) (rShuntValue iMaxValue : float) :
  connection i = Some c →
  let currentLSB := (iMaxValue / 32768 * 1000000)%float in
  let decade := Pow 10 (Floor (Log10 currentLSB)) in
  let mantissa := (currentLSB / decade)%float in
  let roundedLSB := (Ceil mantissa * decade / 1000000)%float in
  let quotient := (0.00512 / (roundedLSB * rShuntValue))%float in
  let cv := uint_of_float 16 quotient in
  let buf := [0x05; cv `div` 256; cv `mod` 256] in
  let i' := after_calls [BusWrite buf] c
              (set_iMax iMaxValue (set_rShunt rShuntValue i)) in
  is_uint16 cv ∧
  (∀ z, float_floor quotient = Some z → is_uint16 z → cv = z) ∧
  word_of_buffer [cv `div` 256; cv `mod` 256] = cv ∧
  Calibrate rShuntValue iMaxValue i
  = Normal (BusError <$> write_reply (device c) (history c) buf, i') ∧
  bus_trace i' = bus_trace i ++ [BusWrite buf] ∧
  rShunt (loadSet i') = rShuntValue ∧ iMax (loadSet i') = iMaxValue.
Proof.
  intros Hc currentLSB decade mantissa roundedLSB quotient cv buf i'.
  assert (Hcv : is_uint16 cv) by (apply (uint_of_float_range 16); lia).
  split; [exact Hcv |]. split; [| split; [| split; [| split]]].
  - intros z Hz Hrange. apply (uint_of_float_floor 16 quotient z Hz Hrange).
  - rewrite <- (wordToByteArray_big_endian cv Hcv).
    apply word_of_buffer_wordToByteArray, Hcv.
  - apply (Calibrate_run i c rShuntValue iMaxValue Hc).
  - unfold i'. rewrite after_calls_trace by exact Hc. reflexivity.
  - split; reflexivity.
Qed.

Lemma Calibrate_writes_calibration_value_witness :
  let i := Bench.started (Bench.steady_device []) in
  let c := {| history := []; device := Bench.steady_device [] |} in
  @Calibrate Bench.ideal_math Bench.wrapping_conv 0.002 10 i
  = Normal (None,
            after_calls [BusWrite [0x05; 0x19; 0x00]] c
              (set_iMax 10 (set_rShunt 0.002 i))).
Proof.
  exact (proj1 (proj2 (proj2 (proj2
    (@Calibrate_writes_calibration_value Bench.ideal_math Bench.wrapping_conv
       (Bench.started (Bench.steady_device []))
       {| history := []; device := Bench.steady_device [] |}
       0.002%float 10%float eq_refl))))).
Defined.

(** *** CurrentResolution *)

Lemma CurrentResolution_rejects (i : INA226Driver) :
  (rShunt (loadSet i) <=? 0)%float = true →
  CurrentResolution i
  = Normal ((0%float, Some (RShuntNotCorrect (rShunt (loadSet i)))), i).
Proof. intros Hle. unfold CurrentResolution. run_prog. rewrite Hle. reflexivity. Qed.

(** Past the check, [CurrentResolution] is the register read followed by the
    division. *)
Lemma CurrentResolution_reads (i : INA226Driver) :
  (rShunt (loadSet i) <=? 0)%float = false →
  CurrentResolution i
  = match readRegister16 CALIBRATION_REG i with
    | Normal ((calibration, None), i') =>
        Normal (((0.00512 / (float_of_Z calibration * rShunt (loadSet i)))%float,
                 None), i')
    | Normal ((_, Some e), i') => Normal ((0%float, Some e), i')
    | Panicked why => Panicked why
    end.
Proof.
  intros Hle. unfold CurrentResolution, readCalibrationRegister. run_prog.
  rewrite Hle.
  destruct (readRegister16 CALIBRATION_REG i) as [[[calibration [e |]] i'] | why];
    reflexivity.
Qed.

(** C3: with a stored shunt resistance [<= 0], [CurrentResolution] returns the
    validation error carrying that value, without touching the bus and
    without dividing; otherwise it reads the calibration register (one
    [Write] of the address 0x05, one [Read] of two bytes) and returns
    exactly [0.00512 / (float64(calibration) * rShunt)], or passes on the
    error of the bus. *)
Theorem CurrentResolution_checks_then_divides (i : INA226Driver) :
  ((rShunt (loadSet i) <=? 0)%float = true →
     CurrentResolution i
     = Normal ((0%float, Some (RShuntNotCorrect (rShunt (loadSet i)))), i)) ∧
  (∀ c, (rShunt (loadSet i) <=? 0)%float = false → connection i = Some c →
     (∀ data,
        write_reply (device c) (history c) [0x05] = None →
        read_reply (device c) (history c ++ [BusWrite [0x05]]) 2
          = (data, None) →
        let calibration := word_of_buffer (fill_buffer 2 data) in
        is_uint16 calibration ∧
        (∀ b0 b1, data = [b0; b1] → is_byte b0 → is_byte b1 →
                  calibration = b0 * 256 + b1) ∧
        CurrentResolution i
        = Normal (((0.00512 / (float_of_Z calibration * rShunt (loadSet i)))%float,
                   None),
                  after_calls [BusWrite [0x05]; BusRead 2] c i)) ∧
     (∀ msg,
        write_reply (device c) (history c) [0x05] = Some msg →
        CurrentResolution i
        = Normal ((0%float, Some (BusError msg)),
                  after_calls [BusWrite [0x05]] c i)) ∧
     (∀ data msg,
        write_reply (device c) (history c) [0x05] = None →
        read_reply (device c) (history c ++ [BusWrite [0x05]]) 2
          = (data, Some msg) →
        CurrentResolution i
        = Normal ((0%float, Some (BusError msg)),
                  after_calls [BusWrite [0x05]; BusRead 2] c i))).
Proof.
  split; [apply CurrentResolution_rejects |].
  intros c Hle Hc. rewrite (CurrentResolution_reads i Hle).
  split; [| split].
  - intros data Hw Hr calibration.
    split; [apply register_word |]. split; [apply register_word |].
    rewrite (readRegister16_value i c CALIBRATION_REG data Hc Hw Hr).
    reflexivity.
  - intros msg Hw.
    rewrite (readRegister16_write_error i c CALIBRATION_REG msg Hc Hw).
    reflexivity.
  - intros data msg Hw Hr.
    rewrite (readRegister16_read_error i c CALIBRATION_REG data msg Hc Hw Hr).
    reflexivity.
Qed.

(** The check on a driver that was never calibrated, and the division on
    one holding [rShunt = 0.002] whose chip reads back 6400: the resolution
    is 0.0004 A per bit. *)
Lemma CurrentResolution_checks_then_divides_witness :
  let dev := Bench.steady_device [0x19; 0x00] in
  let c := {| history := []; device := dev |} in
  CurrentResolution (Bench.started dev)
  = Normal ((0%float, Some (RShuntNotCorrect 0)), Bench.started dev) ∧
  CurrentResolution (set_rShunt 0.002 (Bench.started dev))
  = Normal ((0.0004%float, None),
            after_calls [BusWrite [0x05]; BusRead 2] c
              (set_rShunt 0.002 (Bench.started dev))).
Proof.
  split.
  - exact (proj1 (CurrentResolution_checks_then_divides
                    (Bench.started (Bench.steady_device [0x19; 0x00]))) eq_refl).
  - exact (proj2 (proj2 (proj1 (proj2 (CurrentResolution_checks_then_divides
                    (set_rShunt 0.002 (Bench.started (Bench.steady_device [0x19; 0x00]))))
                    {| history := []; device := Bench.steady_device [0x19; 0x00] |}
                    eq_refl eq_refl) [0x19; 0x00] eq_refl eq_refl))).
Defined.

(** C10: [Calibrate] stores [rShunt] and [iMax] before it writes, so when the
    [Write] fails it returns the error with the new values in place; a
    following [CurrentResolution] with the stored [rShunt > 0] then passes
    its check and goes on to address the calibration register, although
    the chip never accepted a calibration value. *)
Theorem Calibrate_keeps_values_on_error `{MathPkg} `{FloatConv}
  (i : INA226Driver) (c : Connection) (rShuntValue iMaxValue : float)
  (msg : string) :
  connection i = Some c →
  let cv := calibrationValue (calibrated_LoadSet rShuntValue iMaxValue i) in
  let buf := [CALIBRATION_REG; cv `div` 256; cv `mod` 256] in
  write_reply (device c) (history c) buf = Some msg →
  let i' := after_calls [BusWrite buf] c
              (set_iMax iMaxValue (set_rShunt rShuntValue i)) in
  Calibrate rShuntValue iMaxValue i = Normal (Some (BusError msg), i') ∧
  rShunt (loadSet i') = rShuntValue ∧ iMax (loadSet i') = iMaxValue ∧
  ((0 <? rShuntValue)%float = true →
     ∃ r i'' rest,
       CurrentResolution i' = Normal (r, i'') ∧
       (∀ value, r.2 ≠ Some (RShuntNotCorrect value)) ∧
       bus_trace i'' = bus_trace i' ++ BusWrite [CALIBRATION_REG] :: rest).
Proof.
  intros Hc cv buf Hw i'.
  split; [| split; [reflexivity | split; [reflexivity |]]].
  - rewrite (Calibrate_run i c rShuntValue iMaxValue Hc). fold cv buf.
    rewrite Hw. reflexivity.
  - intros Hpos.
    assert (Hle : (rShunt (loadSet i') <=? 0)%float = false)
      by (apply positive_not_leb_zero; exact Hpos).
    rewrite (CurrentResolution_reads i' Hle).
    set (c' := {| history := history c ++ [BusWrite buf]; device := device c |}).
    assert (Hc' : connection i' = Some c') by reflexivity.
    assert (Htrace : bus_trace i' = history c') by reflexivity.
    destruct (write_reply (device c') (history c') [CALIBRATION_REG])
      as [msg' |] eqn:Hw'.
    + rewrite (readRegister16_write_error i' c' _ msg' Hc' Hw').
      eexists _, _, []. split; [reflexivity |]. split; [intros value; discriminate |].
      rewrite (after_calls_trace _ c' i' Hc'). reflexivity.
    + destruct (read_reply (device c') (history c' ++ [BusWrite [CALIBRATION_REG]]) 2)
        as [data [msg' |]] eqn:Hr'.
      * rewrite (readRegister16_read_error i' c' _ data msg' Hc' Hw' Hr').
        eexists _, _, [BusRead 2]. split; [reflexivity |].
        split; [intros value; discriminate |].
        rewrite (after_calls_trace _ c' i' Hc'). reflexivity.
      * rewrite (readRegister16_value i' c' _ data Hc' Hw' Hr').
        eexists _, _, [BusRead 2]. split; [reflexivity |].
        split; [intros value; discriminate |].
        rewrite (after_calls_trace _ c' i' Hc'). reflexivity.
Qed.

(** On a device that refuses register writes, [Calibrate 0.002 10] fails and
    leaves [rShunt = 0.002]; [CurrentResolution] then reads the register. *)
Lemma Calibrate_keeps_values_on_error_witness :
  let dev := Bench.write_protected_device [0x00; 0x00] in
  let c := {| history := []; device := dev |} in
  let i' := after_calls [BusWrite [0x05; 0x19; 0x00]] c
              (set_iMax 10 (set_rShunt 0.002 (Bench.started dev))) in
  @Calibrate Bench.ideal_math Bench.wrapping_conv 0.002 10 (Bench.started dev)
  = Normal (Some (BusError "remote I/O error"), i') ∧
  rShunt (loadSet i') = 0.002%float ∧
  ∃ r i'' rest,
    CurrentResolution i' = Normal (r, i'') ∧
    (∀ value, r.2 ≠ Some (RShuntNotCorrect value)) ∧
    bus_trace i'' = bus_trace i' ++ BusWrite [CALIBRATION_REG] :: rest.
Proof.
  pose proof (@Calibrate_keeps_values_on_error Bench.ideal_math Bench.wrapping_conv
                (Bench.started (Bench.write_protected_device [0x00; 0x00]))
                {| history := [];
                   device := Bench.write_protected_device [0x00; 0x00] |}
                0.002%float 10%float "remote I/O error" eq_refl eq_refl)
    as (Hrun & Hr & _ & Hnext).
  split; [exact Hrun |]. split; [exact Hr |]. exact (Hnext eq_refl).
Defined.

(** *** Voltages *)

(** C5: when the register read succeeds, [ReadBusVoltage] returns the
    unsigned 16-bit content of the bus-voltage register 0x02 (the two bytes
    read, most significant first), converted to [float64] and multiplied by
    1.25; for the raw value 1000 that is 1250.0. *)
Theorem ReadBusVoltage_scales_by_1_25 (i : INA226Driver) (c : Connection)
  (data : list Z) :
  connection i = Some c →
  write_reply (device c) (history c) [0x02] = None →
  read_reply (device c) (history c ++ [BusWrite [0x02]]) 2 = (data, None) →
  let raw := word_of_buffer (fill_buffer 2 data) in
  let i' := after_calls [BusWrite [0x02]; BusRead 2] c i in
  is_uint16 raw ∧
  (∀ b0 b1, data = [b0; b1] → is_byte b0 → is_byte b1 → raw = b0 * 256 + b1) ∧
  ReadBusVoltage i = Normal (((float_of_Z raw * 1.25)%float, None), i') ∧
  (raw = 1000 → ReadBusVoltage i = Normal ((1250%float, None), i')).
Proof.
  intros Hc Hw Hr raw i'.
  assert (Hrun : ReadBusVoltage i
                 = Normal (((float_of_Z raw * 1.25)%float, None), i')).
  { unfold ReadBusVoltage. run_prog.
    rewrite (readRegister16_value i c BUSVOLTAGE_REG data Hc Hw Hr).
    reflexivity. }
  split; [apply register_word |]. split; [apply register_word |].
  split; [exact Hrun |].
  intros Hraw. rewrite Hrun, Hraw. reflexivity.
Qed.

Lemma ReadBusVoltage_scales_by_1_25_witness :
  let dev := Bench.steady_device [0x03; 0xE8] in
  ReadBusVoltage (Bench.started dev)
  = Normal ((1250%float, None),
            after_calls [BusWrite [0x02]; BusRead 2]
              {| history := []; device := dev |} (Bench.started dev)).
Proof.
  exact (proj2 (proj2 (proj2 (ReadBusVoltage_scales_by_1_25
           (Bench.started (Bench.steady_device [0x03; 0xE8]))
           {| history := []; device := Bench.steady_device [0x03; 0xE8] |}
           [0x03; 0xE8] eq_refl eq_refl eq_refl))) eq_refl).
Defined.

(** C6: when the register read succeeds, [ReadShuntVoltage] reinterprets the
    16-bit content of the shunt-voltage register 0x01 as a two's complement
    [int16], converts it to [float64] and multiplies it by 0.0025; for the
    raw value that represents -100 that is -0.25. *)
Theorem ReadShuntVoltage_scales_signed_by_0_0025 (i : INA226Driver)
  (c : Connection) (data : list Z) :
  connection i = Some c →
  write_reply (device c) (history c) [0x01] = None →
  read_reply (device c) (history c ++ [BusWrite [0x01]]) 2 = (data, None) →
  let raw := word_of_buffer (fill_buffer 2 data) in
  let signed := if raw <? 32768 then raw else raw - 65536 in
  let i' := after_calls [BusWrite [0x01]; BusRead 2] c i in
  is_uint16 raw ∧
  (∀ b0 b1, data = [b0; b1] → is_byte b0 → is_byte b1 → raw = b0 * 256 + b1) ∧
  -32768 <= signed < 32768 ∧ signed `mod` 65536 = raw ∧
  ReadShuntVoltage i = Normal (((float_of_Z signed * 0.0025)%float, None), i') ∧
  (signed = -100 → ReadShuntVoltage i = Normal (((-0.25)%float, None), i')).
Proof.
  intros Hc Hw Hr raw signed i'.
  assert (Hraw : is_uint16 raw) by apply register_word.
  assert (Hrun : ReadShuntVoltage i
                 = Normal (((float_of_Z signed * 0.0025)%float, None), i')).
  { unfold ReadShuntVoltage. run_prog.
    rewrite (readRegister16_value i c SHUNTVOLTAGE_REG data Hc Hw Hr).
    reflexivity. }
  split; [exact Hraw |]. split; [apply register_word |].
  unfold is_uint16 in Hraw.
  split; [| split; [| split]].
  - unfold signed. destruct (Z.ltb_spec raw 32768); lia.
  - unfold signed. destruct (Z.ltb_spec raw 32768).
    + apply Z.mod_small. lia.
    + symmetry. apply (Z.mod_unique _ _ (-1)); lia.
  - exact Hrun.
  - intros Hsigned. rewrite Hrun, Hsigned. reflexivity.
Qed.

Lemma ReadShuntVoltage_scales_signed_by_0_0025_witness :
  let dev := Bench.steady_device [0xFF; 0x9C] in
  ReadShuntVoltage (Bench.started dev)
  = Normal (((-0.25)%float, None),
            after_calls [BusWrite [0x01]; BusRead 2]
              {| history := []; device := dev |} (Bench.started dev)).
Proof.
  exact (proj2 (proj2 (proj2 (proj2 (proj2
           (ReadShuntVoltage_scales_signed_by_0_0025
              (Bench.started (Bench.steady_device [0xFF; 0x9C]))
              {| history := []; device := Bench.steady_device [0xFF; 0x9C] |}
              [0xFF; 0x9C] eq_refl eq_refl eq_refl))))) eq_refl).
Defined.

End Driver.

(** ** The NanoPi NEO adaptor *)

Section Board.
Import NanoPiNeo.

Ltac run_prog :=
  unfold mbind, mret, prog_mbind, prog_mret, prog_bind, prog_ret,
    prog_get, prog_modify, prog_panic.

Lemma with_calls_nil (w : World) : with_calls [] w = w.
Proof.
  destruct w as [c [h rep]]. unfold with_calls. cbn. rewrite app_nil_r.
  reflexivity.
Qed.

Lemma with_calls_twice (ops1 ops2 : list sysfsOp) (w : World) :
  with_calls ops2 (with_calls ops1 w) = with_calls (ops1 ++ ops2) w.
Proof. unfold with_calls. cbn. rewrite app_assoc. reflexivity. Qed.

Lemma with_calls_reply (ops : list sysfsOp) (w : World) :
  reply (kernel (with_calls ops w)) = reply (kernel w).
Proof. reflexivity. Qed.

Lemma with_calls_calls (ops : list sysfsOp) (w : World) :
  calls (kernel (with_calls ops w)) = calls (kernel w) ++ ops.
Proof. reflexivity. Qed.

Lemma with_calls_adaptor (ops : list sysfsOp) (w : World) :
  adaptor (with_calls ops w) = adaptor w.
Proof. reflexivity. Qed.

Lemma failures_app (rep : list sysfsOp → sysfsOp → option string)
  (h ops1 ops2 : list sysfsOp) :
  failures rep h (ops1 ++ ops2)
  = failures rep h ops1 ++ failures rep (h ++ ops1) ops2.
Proof.
  revert h. induction ops1 as [| op ops1 IH]; intros h; cbn.
  - rewrite app_nil_r. reflexivity.
  - rewrite IH, <- app_assoc. cbn.
    destruct (rep h op); reflexivity.
Qed.

(** A failing call puts its error in the list. *)
Lemma failures_elem (rep : list sysfsOp → sysfsOp → option string)
  (h before after : list sysfsOp) (op : sysfsOp) (msg : string) :
  rep (h ++ before) op = Some msg →
  SysfsError msg ∈ failures rep h (before ++ op :: after).
Proof.
  intros Hrep. rewrite failures_app. cbn. rewrite Hrep.
  apply elem_of_app. right. apply list_elem_of_here.
Qed.

(** Without a failing call the list is empty. *)
Lemma failures_none (rep : list sysfsOp → sysfsOp → option string)
  (h ops : list sysfsOp) :
  (∀ before op after, ops = before ++ op :: after →
                      rep (h ++ before) op = None) →
  failures rep h ops = [].
Proof.
  revert h. induction ops as [| op ops IH]; intros h Hnone; cbn.
  - reflexivity.
  - rewrite (IH (h ++ [op])).
    + specialize (Hnone [] op ops eq_refl). rewrite app_nil_r in Hnone.
      rewrite Hnone. reflexivity.
    + intros before op' after ->. rewrite <- app_assoc.
      apply (Hnone (op :: before) op' after). reflexivity.
Qed.

Lemma aggregate_snoc (acc : list error) (msg : string) :
  Some (multierror_Append (aggregate acc) (SysfsError msg))
  = aggregate (acc ++ [SysfsError msg]).
Proof. destruct acc as [| e acc]; reflexivity. Qed.

Lemma sys_call_run (op : sysfsOp) (w : World) :
  sys_call op w
  = Normal (SysfsError <$> reply (kernel w) (calls (kernel w)) op,
            with_calls [op] w).
Proof. reflexivity. Qed.

(** One collecting step: the call is made whatever came before, and its
    error joins those gathered so far. *)
Lemma collect_run (op : sysfsOp) (acc : list error) (w : World) :
  collect op (aggregate acc) w
  = Normal (aggregate (acc ++ failures (reply (kernel w)) (calls (kernel w)) [op]),
            with_calls [op] w).
Proof.
  unfold collect. run_prog. rewrite sys_call_run. cbn [failures].
  destruct (reply (kernel w) (calls (kernel w)) op) as [msg |]; cbn.
  - rewrite aggregate_snoc. reflexivity.
  - rewrite app_nil_r. reflexivity.
Qed.

Lemma release_digitalPins_run (ds : list (Z * option sysfs_DigitalPin))
  (acc : list error) (w : World) :
  release_digitalPins ds (aggregate acc) w
  = Normal (aggregate (acc ++ failures (reply (kernel w)) (calls (kernel w))
                                (digital_releases ds)),
            with_calls (digital_releases ds) w).
Proof.
  revert acc w. induction ds as [| [k [p |]] ds IH]; intros acc w.
  - cbn. rewrite app_nil_r, with_calls_nil. reflexivity.
  - cbn [release_digitalPins]. run_prog. rewrite collect_run. cbv beta iota.
    rewrite IH, with_calls_reply, with_calls_calls, with_calls_twice.
    unfold digital_releases. rewrite bind_cons. cbn [snd].
    rewrite failures_app, <- !app_assoc. reflexivity.
  - cbn [release_digitalPins]. rewrite IH. reflexivity.
Qed.

Lemma release_pwmPins_run (ps : list (Z * option sysfs_PWMPin))
  (acc : list error) (w : World) :
  release_pwmPins ps (aggregate acc) w
  = Normal (aggregate (acc ++ failures (reply (kernel w)) (calls (kernel w))
                                (pwm_releases ps)),
            with_calls (pwm_releases ps) w).
Proof.
  revert acc w. induction ps as [| [k [p |]] ps IH]; intros acc w.
  - cbn. rewrite app_nil_r, with_calls_nil. reflexivity.
  - cbn [release_pwmPins]. run_prog. rewrite collect_run. cbv beta iota.
    rewrite collect_run. cbv beta iota.
    rewrite IH, !with_calls_reply, !with_calls_calls, !with_calls_twice.
    unfold pwm_releases. rewrite bind_cons. cbn [snd].
    rewrite (failures_app _ _ [PwmEnable (channel p) false; PwmUnexport (channel p)]).
    rewrite (failures_app _ _ [PwmEnable (channel p) false] [PwmUnexport (channel p)]).
    rewrite <- !app_assoc. reflexivity.
  - cbn [release_pwmPins]. rewrite IH. reflexivity.
Qed.

Lemma release_i2cBuses_run (bs : list (option sysfs_I2cDevice))
  (acc : list error) (w : World) :
  release_i2cBuses bs (aggregate acc) w
  = Normal (aggregate (acc ++ failures (reply (kernel w)) (calls (kernel w))
                                (bus_releases bs)),
            with_calls (bus_releases bs) w).
Proof.
  revert acc w. induction bs as [| [bus |] bs IH]; intros acc w.
  - cbn. rewrite app_nil_r, with_calls_nil. reflexivity.
  - cbn [release_i2cBuses]. run_prog. rewrite collect_run. cbv beta iota.
    rewrite IH, with_calls_reply, with_calls_calls, with_calls_twice.
    unfold bus_releases. rewrite bind_cons.
    rewrite failures_app, <- !app_assoc. reflexivity.
  - cbn [release_i2cBuses]. rewrite IH. reflexivity.
Qed.

(** [Finalize] on given enumerations: every release call is made, in the
    order digital pins, PWM pins, buses, and the result aggregates exactly
    the failures among them. *)
Lemma Finalize_in_run (ds : list (Z * option sysfs_DigitalPin))
  (ps : list (Z * option sysfs_PWMPin)) (w : World) :
  let ops := digital_releases ds ++ pwm_releases ps
             ++ bus_releases (i2cBuses (adaptor w)) in
  Finalize_in ds ps w
  = Normal (aggregate (failures (reply (kernel w)) (calls (kernel w)) ops),
            with_calls ops w).
Proof.
  intros ops. unfold Finalize_in. run_prog.
  change (release_digitalPins ds None) with (release_digitalPins ds (aggregate [])).
  rewrite (release_digitalPins_run ds [] w). cbv beta iota.
  rewrite release_pwmPins_run. cbv beta iota.
  unfold get_adaptor. cbv beta iota.
  rewrite release_i2cBuses_run.
  rewrite !with_calls_reply, !with_calls_calls, !with_calls_adaptor,
    !with_calls_twice.
  unfold ops. rewrite !failures_app, <- !app_assoc. reflexivity.
Qed.

(** *** Finalize *)

(** [Finalize] always runs to its end: on every enumeration of the maps the
    body returns. *)
Lemma Finalize_run_exists (w : World) :
  ∃ err w', Finalize_run w (Normal (err, w')).
Proof.
  eexists _, _. exists (map_to_list (digitalPins (adaptor w))),
                  (map_to_list (pwmPins (adaptor w))).
  split; [reflexivity |]. split; [reflexivity |].
  symmetry. apply Finalize_in_run.
Qed.

Lemma digital_release_elem (ds : list (Z * option sysfs_DigitalPin)) (k : Z)
  (p : sysfs_DigitalPin) :
  (k, Some p) ∈ ds → DigitalUnexport (gpio p) ∈ digital_releases ds.
Proof.
  intros Hin. unfold digital_releases. apply list_elem_of_bind.
  exists (k, Some p). split; [apply list_elem_of_here | exact Hin].
Qed.

Lemma bus_release_elem (bs : list (option sysfs_I2cDevice)) (bus : sysfs_I2cDevice) :
  Some bus ∈ bs → I2cClose (location bus) ∈ bus_releases bs.
Proof.
  intros Hin. unfold bus_releases. apply list_elem_of_bind.
  exists (Some bus). split; [apply list_elem_of_here | exact Hin].
Qed.

(** The two calls that release a PWM pin are made one after the other. *)
Lemma pwm_release_adjacent (ps : list (Z * option sysfs_PWMPin)) (k : Z) (p : sysfs_PWMPin) :
  (k, Some p) ∈ ps →
  ∃ before after,
    pwm_releases ps
    = before ++ [PwmEnable (channel p) false; PwmUnexport (channel p)] ++ after.
Proof.
  intros (l1 & l2 & ->)%list_elem_of_split.
  exists (pwm_releases l1), (pwm_releases l2).
  unfold pwm_releases. rewrite bind_app, bind_cons. reflexivity.
Qed.

(** C8: whatever order the maps are visited in, [Finalize] makes the release
    calls of every created handle and no other call: unexport for each
    digital pin, disable immediately followed by unexport for each PWM pin,
    close for each open bus.  A failing call stops nothing: the result is
    the aggregate of the errors of all the calls that failed ([nil] when
    none did), so every failure is in the returned error. *)
Theorem Finalize_releases_every_handle (w : World)
  (res : outcome (option error * World)) :
  Finalize_run w res →
  ∃ ops err,
    res = Normal (err, with_calls ops w) ∧
    ops ≡ₚ digital_releases (map_to_list (digitalPins (adaptor w)))
           ++ pwm_releases (map_to_list (pwmPins (adaptor w)))
           ++ bus_releases (i2cBuses (adaptor w)) ∧
    (∀ k p, digitalPins (adaptor w) !! k = Some (Some p) →
            DigitalUnexport (gpio p) ∈ ops) ∧
    (∀ k p, pwmPins (adaptor w) !! k = Some (Some p) →
            ∃ before after,
              ops = before
                    ++ [PwmEnable (channel p) false; PwmUnexport (channel p)]
                    ++ after) ∧
    (∀ n bus, i2cBuses (adaptor w) !! n = Some (Some bus) →
              I2cClose (location bus) ∈ ops) ∧
    err = aggregate (failures (reply (kernel w)) (calls (kernel w)) ops) ∧
    (∀ before op after msg,
       ops = before ++ op :: after →
       reply (kernel w) (calls (kernel w) ++ before) op = Some msg →
       ∃ errs, err = Some (MultiError errs) ∧ SysfsError msg ∈ errs) ∧
    ((∀ before op after,
        ops = before ++ op :: after →
        reply (kernel w) (calls (kernel w) ++ before) op = None) →
     err = None).
Proof.
  intros (ds & ps & Hds & Hps & ->).
  rewrite Finalize_in_run.
  set (ops := digital_releases ds ++ pwm_releases ps
              ++ bus_releases (i2cBuses (adaptor w))).
  exists ops, (aggregate (failures (reply (kernel w)) (calls (kernel w)) ops)).
  split; [reflexivity |]. split; [| split; [| split; [| split; [| split; [| split]]]]].
  - unfold ops, digital_releases, pwm_releases. rewrite Hds, Hps. reflexivity.
  - intros k p Hk. unfold ops. apply elem_of_app. left.
    apply (digital_release_elem ds k p). rewrite Hds.
    apply elem_of_map_to_list. exact Hk.
  - intros k p Hk.
    destruct (pwm_release_adjacent ps k p) as (before & after & Hsplit).
    { rewrite Hps. apply elem_of_map_to_list. exact Hk. }
    exists (digital_releases ds ++ before),
           (after ++ bus_releases (i2cBuses (adaptor w))).
    unfold ops. rewrite Hsplit, <- !app_assoc. reflexivity.
  - intros n bus Hn. unfold ops. apply elem_of_app. right.
    apply elem_of_app. right. apply bus_release_elem.
    apply list_elem_of_lookup. exists n. exact Hn.
  - reflexivity.
  - intros before op after msg Hsplit Hrep.
    pose proof (failures_elem (reply (kernel w)) (calls (kernel w))
                  before after op msg Hrep) as Hin.
    rewrite <- Hsplit in Hin.
    destruct (failures (reply (kernel w)) (calls (kernel w)) ops) as [| e errs].
    + apply elem_of_nil in Hin. destruct Hin.
    + exists (e :: errs). split; [reflexivity | exact Hin].
  - intros Hnone. rewrite (failures_none _ _ ops Hnone). reflexivity.
Qed.

(** Two digital pins and one PWM pin were created, and unexporting GPIO 203
    fails: GPIO 64 is unexported and the PWM pin disabled and unexported all
    the same, and the result holds the one failure. *)
Lemma Finalize_releases_every_handle_witness :
  let w := Bench.three_pins in
  let res := Finalize_in (map_to_list (digitalPins (adaptor w)))
               (map_to_list (pwmPins (adaptor w))) w in
  Finalize_run w res ∧
  ∃ ops,
    res = Normal (Some (MultiError [SysfsError "device or resource busy"]),
                  with_calls ops w) ∧
    DigitalUnexport 203 ∈ ops ∧ DigitalUnexport 64 ∈ ops ∧
    ∃ before after, ops = before ++ [PwmEnable 0 false; PwmUnexport 0] ++ after.
Proof.
  intros w res.
  assert (Hrun : Finalize_run w res).
  { exists (map_to_list (digitalPins (adaptor w))),
           (map_to_list (pwmPins (adaptor w))).
    split; [reflexivity |]. split; reflexivity. }
  split; [exact Hrun |].
  destruct (Finalize_releases_every_handle w res Hrun)
    as (ops & err & Hres & _ & Hdigital & Hpwm & _ & _ & _ & _).
  assert (Herr : match res with
                 | Normal (e, _) => e
                 | Panicked _ => None
                 end = Some (MultiError [SysfsError "device or resource busy"]))
    by (vm_compute; reflexivity).
  rewrite Hres in Herr. exists ops. rewrite Hres, Herr.
  split; [reflexivity |].
  split; [apply (Hdigital 203 {| gpio := 203 |}); vm_compute; reflexivity |].
  split; [apply (Hdigital 64 {| gpio := 64 |}); vm_compute; reflexivity |].
  apply (Hpwm 0 {| channel := 0 |}). vm_compute. reflexivity.
Defined.

(** *** GetConnection *)

(** The bus table keeps its two slots. *)
Lemma NewAdaptor_two_buses (defaultName : string) :
  length (i2cBuses (NewAdaptor defaultName)) = 2%nat.
Proof. reflexivity. Qed.

(** X1: a bus number below 0 or above 2 is refused with the out-of-range
    error that carries it; no device is opened and the adaptor is
    unchanged. *)
Theorem GetConnection_out_of_range (address bus : Z) (w : World) :
  bus < 0 ∨ 2 < bus →
  GetConnection address bus w = Normal ((None, Some (BusOutOfRange bus)), w).
Proof.
  intros Hbus. unfold GetConnection.
  replace ((bus <? 0) || (bus >? 2)) with true; [reflexivity |].
  symmetry. apply orb_true_iff. rewrite Z.ltb_lt, Z.gtb_gt. lia.
Qed.

Lemma GetConnection_out_of_range_witness :
  GetConnection 0x40 3 (Bench.fresh_world Bench.obliging_kernel)
  = Normal ((None, Some (BusOutOfRange 3)),
            Bench.fresh_world Bench.obliging_kernel).
Proof.
  apply (GetConnection_out_of_range 0x40 3
           (Bench.fresh_world Bench.obliging_kernel)).
  right. lia.
Defined.

(** X2: for bus 0 or 1 not yet open, [GetConnection] opens
    [/dev/i2c-<bus>] (one call), stores the device in the slot of that bus
    and returns a connection to it for the given address, together with the
    error of the opening, if any. *)
Theorem GetConnection_opens (address bus : Z) (w : World) :
  length (i2cBuses (adaptor w)) = 2%nat →
  0 <= bus <= 1 →
  i2cBuses (adaptor w) !! Z.to_nat bus = Some None →
  let path := "/dev/i2c-" +:+ pretty bus in
  let dev := Some {| location := path |} in
  GetConnection address bus w
  = Normal ((Some {| conn_bus := dev; conn_address := address |},
             SysfsError <$> reply (kernel w) (calls (kernel w)) (I2cOpen path)),
            with_calls [I2cOpen path]
              (with_adaptor (set_i2cBus (Z.to_nat bus) dev) w)).
Proof.
  intros Hlen Hbus Hslot path dev. unfold GetConnection.
  replace ((bus <? 0) || (bus >? 2)) with false
    by (symmetry; apply orb_false_iff; rewrite Z.ltb_ge, Z.gtb_ltb, Z.ltb_ge; lia).
  run_prog. unfold get_adaptor, modify_adaptor. cbv beta iota.
  rewrite Hslot. cbv beta iota. rewrite sys_call_run. cbv beta iota.
  cbn [adaptor with_calls set_i2cBus i2cBuses].
  rewrite list_lookup_insert_eq by (apply Nat2Z.inj_lt; rewrite Hlen; lia).
  reflexivity.
Qed.

Lemma GetConnection_opens_witness :
  let w := Bench.fresh_world Bench.obliging_kernel in
  let dev := Some {| location := "/dev/i2c-1" |} in
  GetConnection 0x40 1 w
  = Normal ((Some {| conn_bus := dev; conn_address := 0x40 |}, None),
            with_calls [I2cOpen "/dev/i2c-1"]
              (with_adaptor (set_i2cBus 1 dev) w)).
Proof.
  refine (GetConnection_opens 0x40 1
            (Bench.fresh_world Bench.obliging_kernel) eq_refl _ eq_refl).
  lia.
Defined.

(** C2 (the code departs from it): bus number 2 passes the range check
    [(bus < 0) || (bus > 2)] and then indexes the two-slot table: the call
    panics instead of returning the out-of-range error. *)
Theorem GetConnection_bus_2_panics (address : Z) (w : World) :
  length (i2cBuses (adaptor w)) = 2%nat →
  GetConnection address 2 w = Panicked (IndexOutOfRange 2 2).
Proof.
  intros Hlen. unfold GetConnection.
  change ((2 <? 0) || (2 >? 2)) with false.
  run_prog. unfold get_adaptor. cbv beta iota.
  destruct (i2cBuses (adaptor w)) as [| b0 [| b1 [| b2 bs]]]; try discriminate.
  reflexivity.
Qed.

Lemma GetConnection_bus_2_panics_witness :
  GetConnection 0x40 2 (Bench.fresh_world Bench.obliging_kernel)
  = Panicked (IndexOutOfRange 2 2).
Proof.
  exact (GetConnection_bus_2_panics 0x40
           (Bench.fresh_world Bench.obliging_kernel) eq_refl).
Defined.

(** *** PWMPin *)

Lemma pins_have_no_pwm : map_Forall (λ _ entry, pwmPin entry = -1) pins.
Proof.
  unfold pins. cbn [list_to_map foldr].
  repeat (apply map_Forall_insert_2; [reflexivity |]).
  apply map_Forall_empty.
Qed.

(** With a [nil] pin map every name reads as the zero entry. *)
Lemma nil_pinmap_zero (pin_name : string) (c : Adaptor) :
  pinmap c = ∅ → default sysfsPin_zero (pinmap c !! pin_name) = sysfsPin_zero.
Proof. intros ->. rewrite lookup_empty. reflexivity. Qed.

Lemma or_return_run {A} (op : sysfsOp) (on_error : error → A)
  (rest : prog World A) (w : World) :
  or_return (sys_call op) on_error rest w
  = match reply (kernel w) (calls (kernel w)) op with
    | Some msg => Normal (on_error (SysfsError msg), with_calls [op] w)
    | None => rest (with_calls [op] w)
    end.
Proof.
  unfold or_return. run_prog. rewrite sys_call_run.
  destruct (reply (kernel w) (calls (kernel w)) op); reflexivity.
Qed.

(** A cached PWM pin is returned as it is. *)
Lemma PWMPin_cached (pin_name : string) (w : World) (p : sysfs_PWMPin) :
  pinmap (adaptor w) = ∅ →
  map_index (pwmPins (adaptor w)) 0 = Some p →
  PWMPin pin_name w = Normal ((Some p, None), w).
Proof.
  intros Hnil Hp. unfold PWMPin. run_prog. unfold get_adaptor. cbv beta iota.
  rewrite (nil_pinmap_zero pin_name _ Hnil). cbn [pwmPin sysfsPin_zero].
  destruct (decide (0 ≠ -1)) as [_ | Hne]; [| exfalso; apply Hne; discriminate].
  rewrite Hp. cbv beta iota. rewrite Hp. reflexivity.
Qed.

(** Without a cached pin the five set-up calls are made on channel 0 until
    one fails; the pin is cached only when none does. *)
Lemma PWMPin_created (pin_name : string) (w : World) :
  pinmap (adaptor w) = ∅ →
  map_index (pwmPins (adaptor w)) 0 = None →
  let setup := [PwmExport 0; PwmEnable 0 false; PwmInvertPolarity 0 false;
                PwmEnable 0 true; PwmSetPeriod 0 10000000] in
  match failures (reply (kernel w)) (calls (kernel w)) setup with
  | [] =>
      PWMPin pin_name w
      = Normal ((Some {| channel := 0 |}, None),
                with_calls setup
                  (with_adaptor (set_pwmPin 0 (Some {| channel := 0 |})) w))
  | e :: _ =>
      ∃ rest,
        PWMPin pin_name w
        = Normal ((None, Some e), with_calls (PwmExport 0 :: rest) w)
  end.
Proof.
  intros Hnil Hp setup. unfold PWMPin. run_prog. unfold get_adaptor.
  cbv beta iota. rewrite (nil_pinmap_zero pin_name _ Hnil).
  cbn [pwmPin sysfsPin_zero channel].
  destruct (decide (0 ≠ -1)) as [_ | Hne]; [| exfalso; apply Hne; discriminate].
  rewrite Hp. unfold setup. cbn [failures].
  rewrite or_return_run.
  destruct (reply (kernel w) (calls (kernel w)) (PwmExport 0)) as [msg |];
    [exists []; reflexivity |].
  rewrite or_return_run, with_calls_reply, with_calls_calls.
  destruct (reply (kernel w) (calls (kernel w) ++ [PwmExport 0])
              (PwmEnable 0 false)) as [msg |];
    [eexists; rewrite with_calls_twice; reflexivity |].
  rewrite with_calls_twice.
  rewrite or_return_run, with_calls_reply, with_calls_calls, app_assoc.
  destruct (reply (kernel w)
              ((calls (kernel w) ++ [PwmExport 0]) ++ [PwmEnable 0 false])
              (PwmInvertPolarity 0 false)) as [msg |];
    [eexists; rewrite with_calls_twice; reflexivity |].
  rewrite with_calls_twice.
  rewrite or_return_run, with_calls_reply, with_calls_calls, !app_assoc.
  destruct (reply (kernel w)
              (((calls (kernel w) ++ [PwmExport 0]) ++ [PwmEnable 0 false])
               ++ [PwmInvertPolarity 0 false])
              (PwmEnable 0 true)) as [msg |];
    [eexists; rewrite with_calls_twice; reflexivity |].
  rewrite with_calls_twice.
  rewrite or_return_run, with_calls_reply, with_calls_calls, !app_assoc.
  destruct (reply (kernel w)
              ((((calls (kernel w) ++ [PwmExport 0]) ++ [PwmEnable 0 false])
                ++ [PwmInvertPolarity 0 false]) ++ [PwmEnable 0 true])
              (PwmSetPeriod 0 10000000)) as [msg |];
    [eexists; rewrite with_calls_twice; reflexivity |].
  rewrite with_calls_twice.
  unfold modify_adaptor. cbv beta iota.
  cbn [adaptor with_calls set_pwmPin pwmPins].
  unfold map_index. rewrite lookup_insert_eq. reflexivity.
Qed.

Lemma failures_are_sysfs (rep : list sysfsOp → sysfsOp → option string)
  (h ops : list sysfsOp) (e : error) :
  e ∈ failures rep h ops → ∃ msg, e = SysfsError msg.
Proof.
  revert h. induction ops as [| op ops IH]; intros h; cbn.
  - intros Hin. apply elem_of_nil in Hin. destruct Hin.
  - destruct (rep h op) as [msg |]; [| apply IH].
    intros [-> | Hin]%elem_of_cons; [exists msg; reflexivity | apply (IH _ Hin)].
Qed.

(** C9: [NewAdaptor] leaves [pinmap] nil, so for every pin name, in the
    static table or not, [PWMPin] reads the zero entry, whose PWM channel is
    0 and not -1: it never returns the "Not a PWM pin" error.  It returns
    the cached pin of channel 0, or else sets channel 0 up starting with
    its export, caching the new pin when the five calls succeed and
    returning the first error otherwise.  Every entry of the static table
    has PWM channel -1. *)
Theorem PWMPin_never_rejects (pin_name : string) (w : World) :
  pinmap (adaptor w) = ∅ →
  let setup := [PwmExport 0; PwmEnable 0 false; PwmInvertPolarity 0 false;
                PwmEnable 0 true; PwmSetPeriod 0 10000000] in
  (∀ defaultName, pinmap (NewAdaptor defaultName) = ∅) ∧
  map_Forall (λ _ entry, pwmPin entry = -1) pins ∧
  pwmPin (default sysfsPin_zero (pinmap (adaptor w) !! pin_name)) = 0 ∧
  ∃ r w',
    PWMPin pin_name w = Normal (r, w') ∧
    r.2 ≠ Some NotAPWMPin ∧
    pinmap (adaptor w') = ∅ ∧
    (∀ p, map_index (pwmPins (adaptor w)) 0 = Some p →
          r = (Some p, None) ∧ w' = w) ∧
    (map_index (pwmPins (adaptor w)) 0 = None →
       (∃ rest, calls (kernel w') = calls (kernel w) ++ PwmExport 0 :: rest) ∧
       (failures (reply (kernel w)) (calls (kernel w)) setup = [] →
          r = (Some {| channel := 0 |}, None) ∧
          w' = with_calls setup
                 (with_adaptor (set_pwmPin 0 (Some {| channel := 0 |})) w) ∧
          map_index (pwmPins (adaptor w')) 0 = Some {| channel := 0 |}) ∧
       (∀ e errs,
          failures (reply (kernel w)) (calls (kernel w)) setup = e :: errs →
          r = (None, Some e) ∧ adaptor w' = adaptor w)).
Proof.
  intros Hnil setup.
  split; [reflexivity |]. split; [exact pins_have_no_pwm |].
  split; [rewrite (nil_pinmap_zero pin_name _ Hnil); reflexivity |].
  destruct (map_index (pwmPins (adaptor w)) 0) as [p |] eqn:Hp.
  - exists (Some p, None), w.
    split; [apply (PWMPin_cached pin_name w p Hnil Hp) |].
    split; [discriminate |]. split; [exact Hnil |].
    split; [intros p' [= <-]; split; reflexivity | discriminate].
  - pose proof (PWMPin_created pin_name w Hnil Hp) as Hrun.
    cbv zeta in Hrun. fold setup in Hrun.
    destruct (failures (reply (kernel w)) (calls (kernel w)) setup)
      as [| e errs] eqn:Hfail.
    + eexists _, _. split; [exact Hrun |].
      split; [discriminate |]. split; [exact Hnil |].
      split; [discriminate |]. intros _.
      split; [exists (tail setup); reflexivity |].
      split; [| discriminate]. intros _.
      split; [reflexivity |]. split; [reflexivity |].
      cbn [adaptor with_calls with_adaptor set_pwmPin pwmPins].
      unfold map_index. rewrite lookup_insert_eq. reflexivity.
    + destruct Hrun as [rest Hrun].
      eexists _, _. split; [exact Hrun |].
      destruct (failures_are_sysfs (reply (kernel w)) (calls (kernel w)) setup e)
        as [msg ->]; [rewrite Hfail; apply list_elem_of_here |].
      split; [discriminate |]. split; [exact Hnil |].
      split; [discriminate |]. intros _.
      split; [exists rest; reflexivity |].
      split; [discriminate |]. intros e' errs' [= <- <-].
      split; reflexivity.
Qed.

(** On a fresh adaptor both a name of the static table and an unknown name
    get the pin of PWM channel 0. *)
Lemma PWMPin_never_rejects_witness :
  let w := Bench.fresh_world Bench.obliging_kernel in
  let setup := [PwmExport 0; PwmEnable 0 false; PwmInvertPolarity 0 false;
                PwmEnable 0 true; PwmSetPeriod 0 10000000] in
  let w' := with_calls setup
              (with_adaptor (set_pwmPin 0 (Some {| channel := 0 |})) w) in
  pins !! "GPIOA6" = Some {| pin := 6; pwmPin := -1 |} ∧
  PWMPin "GPIOA6" w = Normal ((Some {| channel := 0 |}, None), w') ∧
  pins !! "no such pin" = None ∧
  PWMPin "no such pin" w = Normal ((Some {| channel := 0 |}, None), w').
Proof.
  intros w setup w'.
  split; [vm_compute; reflexivity |].
  split; [| split; [vm_compute; reflexivity |]].
  - destruct (PWMPin_never_rejects "GPIOA6" w eq_refl)
      as (_ & _ & _ & r & w1 & Hrun & _ & _ & _ & Hnew).
    destruct (Hnew eq_refl) as (_ & Hok & _).
    destruct (Hok eq_refl) as (-> & -> & _). exact Hrun.
  - destruct (PWMPin_never_rejects "no such pin" w eq_refl)
      as (_ & _ & _ & r & w1 & Hrun & _ & _ & _ & Hnew).
    destruct (Hnew eq_refl) as (_ & Hok & _).
    destruct (Hok eq_refl) as (-> & -> & _). exact Hrun.
Defined.

(** *** ServoWrite *)

(** On [0, 180] the conversion to [uint32] of the scaled angle is the
    integer part of the exact linear map: all 181 angles are checked. *)
Lemma servo_duty_linear `{FloatConv} (angle : Z) :
  0 <= angle <= 180 →
  servo_duty angle = 500000 + (angle * (2000000 - 500000)) `div` 180.
Proof.
  intros Hangle.
  assert (Hall : forallb
                   (λ a, servo_duty a
                         =? 500000 + (a * (2000000 - 500000)) `div` 180)
                   (seqZ 0 181) = true)
    by (vm_compute; reflexivity).
  rewrite forallb_forall in Hall.
  apply Z.eqb_eq, Hall, list_elem_of_In, elem_of_seqZ. lia.
Qed.

(** C7: once [PWMPin] has given a pin, [ServoWrite] makes one call,
    [SetDutyCycle], with the angle mapped linearly from [0, 180] onto
    [500000, 2000000] nanoseconds (integer part); the duty cycle depends on
    the angle alone, no period is read.  Angle 90 gives 1250000. *)
Theorem ServoWrite_maps_angle_linearly `{FloatConv} (pin_name : string)
  (angle : Z) (w w' : World) (p : sysfs_PWMPin) :
  0 <= angle <= 180 →
  PWMPin pin_name w = Normal ((Some p, None), w') →
  let duty := 500000 + (angle * (2000000 - 500000)) `div` 180 in
  let call := PwmSetDutyCycle (channel p) duty in
  ServoWrite pin_name angle w
  = Normal (SysfsError <$> reply (kernel w') (calls (kernel w')) call,
            with_calls [call] w') ∧
  500000 <= duty <= 2000000 ∧
  (angle = 0 → duty = 500000) ∧
  (angle = 90 → duty = 1250000) ∧
  (angle = 180 → duty = 2000000).
Proof.
  intros Hangle Hpin duty call.
  split; [| split; [| split; [| split]]].
  - unfold ServoWrite. run_prog. rewrite Hpin. cbv beta iota.
    rewrite (servo_duty_linear angle Hangle). apply sys_call_run.
  - unfold duty. split.
    + assert (0 <= (angle * (2000000 - 500000)) `div` 180)
        by (apply Z.div_pos; lia). lia.
    + assert ((angle * (2000000 - 500000)) `div` 180 <= 1500000)
        by (apply Z.div_le_upper_bound; lia). lia.
  - intros ->. reflexivity.
  - intros ->. reflexivity.
  - intros ->. reflexivity.
Qed.

Lemma ServoWrite_maps_angle_linearly_witness :
  let w := Bench.fresh_world Bench.obliging_kernel in
  let w' := Bench.world_after (PWMPin "GPIOA6") w in
  @ServoWrite Bench.wrapping_conv "GPIOA6" 90 w
  = Normal (None, with_calls [PwmSetDutyCycle 0 1250000] w').
Proof.
  refine (proj1 (@ServoWrite_maps_angle_linearly Bench.wrapping_conv
                   "GPIOA6" 90 (Bench.fresh_world Bench.obliging_kernel)
                   (Bench.world_after (PWMPin "GPIOA6")
                      (Bench.fresh_world Bench.obliging_kernel))
                   {| channel := 0 |} _ _)).
  - lia.
  - vm_compute. reflexivity.
Defined.

(** *** The adaptor stays well formed *)

Ltac run_in H :=
  unfold mbind, mret, prog_mbind, prog_mret, prog_bind, prog_ret,
    prog_get, prog_modify, prog_panic in H.

(** Case analysis on every answer the run recorded in [H] depends on. *)
Ltac crunch H :=
  repeat match type of H with
         | context [match ?x with _ => _ end] =>
             destruct x eqn:?; cbn in H; try discriminate H
         | context [if ?x then _ else _] =>
             destruct x eqn:?; cbn in H; try discriminate H
         end.

Lemma NewAdaptor_well_formed (defaultName : string) :
  well_formed (NewAdaptor defaultName).
Proof. split; reflexivity. Qed.

Lemma PWMPin_well_formed (pin_name : string) (w w' : World)
  (r : option sysfs_PWMPin * option error) :
  well_formed (adaptor w) →
  PWMPin pin_name w = Normal (r, w') → well_formed (adaptor w').
Proof.
  intros Hwf Hrun.
  unfold PWMPin, or_return, sys_call, get_adaptor, modify_adaptor in Hrun.
  run_in Hrun. cbn in Hrun.
  crunch Hrun; injection Hrun as <- <-; exact Hwf.
Qed.

Lemma DigitalPin_well_formed (pin_name dir : string) (w w' : World)
  (r : option sysfs_DigitalPin * option error) :
  well_formed (adaptor w) →
  DigitalPin pin_name dir w = Normal (r, w') → well_formed (adaptor w').
Proof.
  intros Hwf Hrun.
  unfold DigitalPin, sys_call, get_adaptor, modify_adaptor in Hrun.
  run_in Hrun.
  destruct (translatePin pin_name) as [i [e |]]; cbn in Hrun.
  - injection Hrun as <- <-. exact Hwf.
  - destruct (map_index (digitalPins (adaptor w)) i); cbn in Hrun;
      crunch Hrun; injection Hrun as <- <-; exact Hwf.
Qed.

Lemma GetConnection_well_formed (address bus : Z) (w w' : World)
  (r : option I2cConnection * option error) :
  well_formed (adaptor w) →
  GetConnection address bus w = Normal (r, w') → well_formed (adaptor w').
Proof.
  intros Hwf Hrun.
  unfold GetConnection, sys_call, get_adaptor, modify_adaptor in Hrun.
  run_in Hrun.
  destruct ((bus <? 0) || (bus >? 2)); cbn in Hrun.
  - injection Hrun as <- <-. exact Hwf.
  - destruct (i2cBuses (adaptor w) !! Z.to_nat bus) as [[dev |] |] eqn:Hslot;
      cbn in Hrun.
    + rewrite Hslot in Hrun. cbn in Hrun. injection Hrun as <- <-. exact Hwf.
    + crunch Hrun; injection Hrun as <- <-.
      all: destruct Hwf as [Hmap Hlen]; split; [exact Hmap |];
        cbn; rewrite length_insert; exact Hlen.
    + discriminate Hrun.
Qed.

Lemma ServoWrite_well_formed `{FloatConv} (pin_name : string) (angle : Z)
  (w w' : World) (r : option error) :
  well_formed (adaptor w) →
  ServoWrite pin_name angle w = Normal (r, w') → well_formed (adaptor w').
Proof.
  intros Hwf Hrun. unfold ServoWrite in Hrun. run_in Hrun.
  destruct (PWMPin pin_name w) as [[[p e] w1] |] eqn:Hpin; [| discriminate Hrun].
  pose proof (PWMPin_well_formed pin_name w w1 _ Hwf Hpin) as Hwf1.
  destruct e; cbn in Hrun; [injection Hrun as <- <-; exact Hwf1 |].
  destruct p; cbn in Hrun; [| discriminate Hrun].
  injection Hrun as <- <-. exact Hwf1.
Qed.

(** X4: [pinmap] stays nil and the bus table keeps its two slots:
    [NewAdaptor] makes them so, and [DigitalPin], [PWMPin],
    [GetConnection] and [ServoWrite] keep them so whenever they return;
    [Finalize] leaves the adaptor as it is (the caches are not cleared). *)
Theorem operations_keep_adaptor_well_formed `{FloatConv} (w : World) :
  well_formed (adaptor w) →
  (∀ defaultName, well_formed (NewAdaptor defaultName)) ∧
  (∀ pin_name dir r w',
     DigitalPin pin_name dir w = Normal (r, w') → well_formed (adaptor w')) ∧
  (∀ pin_name r w',
     PWMPin pin_name w = Normal (r, w') → well_formed (adaptor w')) ∧
  (∀ address bus r w',
     GetConnection address bus w = Normal (r, w') → well_formed (adaptor w')) ∧
  (∀ pin_name angle r w',
     ServoWrite pin_name angle w = Normal (r, w') → well_formed (adaptor w')) ∧
  (∀ ds ps r w',
     Finalize_in ds ps w = Normal (r, w') → adaptor w' = adaptor w).
Proof.
  intros Hwf.
  split; [exact NewAdaptor_well_formed |].
  split; [intros pin_name dir r w'; apply DigitalPin_well_formed, Hwf |].
  split; [intros pin_name r w'; apply PWMPin_well_formed, Hwf |].
  split; [intros address bus r w'; apply GetConnection_well_formed, Hwf |].
  split; [intros pin_name angle r w'; apply ServoWrite_well_formed, Hwf |].
  intros ds ps r w'. rewrite Finalize_in_run. intros [= <- <-]. reflexivity.
Qed.

Lemma operations_keep_adaptor_well_formed_witness :
  well_formed
    (adaptor (Bench.world_after (GetConnection 0x40 1)
                (Bench.fresh_world Bench.obliging_kernel))).
Proof.
  refine (proj1 (proj2 (proj2 (proj2
            (@operations_keep_adaptor_well_formed Bench.wrapping_conv
               (Bench.fresh_world Bench.obliging_kernel)
               (NewAdaptor_well_formed "Nano pi Neo-1")))))
            0x40 1
            (Some {| conn_bus := Some {| location := "/dev/i2c-1" |};
                     conn_address := 0x40 |}, None)
            _ _).
  vm_compute. reflexivity.
Defined.

End Board.

(** ** More of the INA226 driver *)

Section DriverMore.
Import INA226.

Ltac run_prog :=
  unfold mbind, mret, prog_mbind, prog_mret, prog_bind, prog_ret,
    prog_get, prog_modify, and_then.

(** *** Words, bytes and flags *)

(** X5: [wordToByteArray] and the decoding of [readRegister16] are inverse
    to each other: a 16-bit word becomes two bytes, most significant
    first, from which the decoding gives the word back, and two bytes
    decode to a 16-bit word that encodes to the same two bytes. *)
Theorem word_bytes_bijection :
  (∀ w, is_uint16 w →
        ∃ hi lo, wordToByteArray w = [hi; lo] ∧ is_byte hi ∧ is_byte lo ∧
                 w = hi * 256 + lo ∧
                 word_of_buffer (wordToByteArray w) = w) ∧
  (∀ b0 b1, is_byte b0 → is_byte b1 →
            is_uint16 (word_of_buffer [b0; b1]) ∧
            wordToByteArray (word_of_buffer [b0; b1]) = [b0; b1]).
Proof.
  split.
  - intros w Hw. exists (w `div` 256), (w `mod` 256).
    destruct (word_bytes w Hw) as [Hhi Hlo].
    split; [apply wordToByteArray_big_endian, Hw |].
    split; [exact Hhi |]. split; [exact Hlo |].
    split; [pose proof (Z.div_mod w 256); lia |].
    apply word_of_buffer_wordToByteArray, Hw.
  - intros b0 b1 Hb0 Hb1.
    destruct (word_of_buffer_bytes b0 b1 Hb0 Hb1) as [-> Hrange].
    split; [exact Hrange |].
    rewrite (wordToByteArray_big_endian _ Hrange).
    unfold is_byte in *.
    rewrite Z.div_add_l, Z.div_small, Z.add_0_r by lia.
    rewrite Z.add_comm, Z.mod_add, Z.mod_small by lia. reflexivity.
Qed.

Lemma foldl_lor_testbit (confs : list Z) (acc n : Z) :
  Z.testbit (foldl Z.lor acc confs) n
  = Z.testbit acc n || existsb (λ conf, Z.testbit conf n) confs.
Proof.
  revert acc. induction confs as [| conf confs IH]; intros acc; cbn.
  - rewrite orb_false_r. reflexivity.
  - rewrite IH, Z.lor_spec, orb_assoc. reflexivity.
Qed.

Lemma existsb_same_elements {A} (f : A → bool) (l1 l2 : list A) :
  (∀ x, x ∈ l1 ↔ x ∈ l2) → existsb f l1 = existsb f l2.
Proof.
  intros Hsame.
  destruct (existsb f l1) eqn:H1, (existsb f l2) eqn:H2; try reflexivity.
  - apply existsb_exists in H1 as (x & Hin & Hx).
    assert (existsb f l2 = true); [| congruence].
    apply existsb_exists. exists x. split; [| exact Hx].
    apply list_elem_of_In, Hsame, list_elem_of_In, Hin.
  - apply existsb_exists in H2 as (x & Hin & Hx).
    assert (existsb f l1 = true); [| congruence].
    apply existsb_exists. exists x. split; [| exact Hx].
    apply list_elem_of_In, Hsame, list_elem_of_In, Hin.
Qed.

(** X6: what [Configure] does depends on the set of flags only, not on
    their order or on repetitions; the word it writes has every bit of
    every flag, and no bit that no flag has.  Flags are not validated:
    two values of one field merge into their OR. *)
Theorem Configure_depends_on_flag_set (confs1 confs2 : list Z)
  (i : INA226Driver) :
  (∀ conf, conf ∈ confs1 ↔ conf ∈ confs2) →
  let word := foldl Z.lor 0 confs1 in
  Configure confs1 i = Configure confs2 i ∧
  (∀ conf, conf ∈ confs1 → Z.land word conf = conf) ∧
  (∀ n, Z.testbit word n = true →
        ∃ conf, conf ∈ confs1 ∧ Z.testbit conf n = true).
Proof.
  intros Hsame word.
  assert (Hbits : ∀ confs n,
             Z.testbit (foldl Z.lor 0 confs) n
             = existsb (λ conf, Z.testbit conf n) confs).
  { intros confs n. rewrite foldl_lor_testbit, Z.bits_0. reflexivity. }
  split; [| split].
  - unfold Configure.
    replace (foldl Z.lor 0 confs2) with (foldl Z.lor 0 confs1); [reflexivity |].
    apply Z.bits_inj. intros n. rewrite !Hbits.
    apply existsb_same_elements, Hsame.
  - intros conf Hin. apply Z.bits_inj. intros n.
    rewrite Z.land_spec. unfold word. rewrite Hbits.
    destruct (Z.testbit conf n) eqn:Hn; [| apply andb_false_r].
    rewrite andb_true_r. apply existsb_exists.
    exists conf. split; [apply list_elem_of_In, Hin | exact Hn].
  - intros n Hn. unfold word in Hn. rewrite Hbits in Hn.
    apply existsb_exists in Hn as (conf & Hin & Hconf).
    exists conf. split; [apply list_elem_of_In, Hin | exact Hconf].
Qed.

(** Listing the modes "shunt, triggered" and "bus, triggered" together,
    in either order and any number of times, is the same as the mode
    "shunt and bus, triggered" of the same field. *)
Lemma Configure_depends_on_flag_set_witness :
  let i := Bench.started (Bench.steady_device []) in
  Configure [INA226_MODE_SHUNT_TRIG; INA226_MODE_BUS_TRIG] i
  = Configure [INA226_MODE_BUS_TRIG; INA226_MODE_SHUNT_TRIG;
               INA226_MODE_BUS_TRIG] i ∧
  Configure [INA226_MODE_SHUNT_TRIG; INA226_MODE_BUS_TRIG] i
  = Configure [INA226_MODE_SHUNT_BUS_TRIG] i.
Proof.
  split; [| reflexivity].
  refine (proj1 (Configure_depends_on_flag_set
                   [INA226_MODE_SHUNT_TRIG; INA226_MODE_BUS_TRIG]
                   [INA226_MODE_BUS_TRIG; INA226_MODE_SHUNT_TRIG;
                    INA226_MODE_BUS_TRIG]
                   (Bench.started (Bench.steady_device [])) _)).
  intros conf. rewrite !elem_of_cons, !elem_of_nil. tauto.
Defined.

(** X7: the four fields of the configuration word do not overlap, and none
    reaches the reset bit: from the OR of one constant of each field,
    each choice is read back as the three bits of its field (the constant's
    rank in the source), with or without the reset bit. *)
Theorem configuration_fields_do_not_overlap (m s b a : nat)
  (mode vsh vbus avg : Z) :
  MODE_constants !! m = Some mode →
  SHUNT_CONV_TIME_constants !! s = Some vsh →
  BUS_CONV_TIME_constants !! b = Some vbus →
  AVERAGES_constants !! a = Some avg →
  let word := foldl Z.lor 0 [mode; vsh; vbus; avg] in
  let reset := Z.lor word INA226_RST in
  is_uint16 word ∧ Z.testbit word 15 = false ∧
  field 0 word = Z.of_nat m ∧ field 3 word = Z.of_nat s ∧ field 6 word = Z.of_nat b ∧ field 9 word = Z.of_nat a ∧
  is_uint16 reset ∧ Z.testbit reset 15 = true ∧
  field 0 reset = Z.of_nat m ∧ field 3 reset = Z.of_nat s ∧ field 6 reset = Z.of_nat b ∧ field 9 reset = Z.of_nat a.
Proof.
  intros Hm Hs Hb Ha.
  pose proof (lookup_lt_Some _ _ _ Hm) as Hm8.
  pose proof (lookup_lt_Some _ _ _ Hs) as Hs8.
  pose proof (lookup_lt_Some _ _ _ Hb) as Hb8.
  pose proof (lookup_lt_Some _ _ _ Ha) as Ha8.
  cbn in Hm8, Hs8, Hb8, Ha8.
  set (ok := λ m s b a : nat,
         let word := foldl Z.lor 0
                       [MODE_constants !!! m; SHUNT_CONV_TIME_constants !!! s;
                        BUS_CONV_TIME_constants !!! b; AVERAGES_constants !!! a] in
         let reset := Z.lor word INA226_RST in
         (0 <=? word) && (word <? 65536) && negb (Z.testbit word 15)
         && (field 0 word =? Z.of_nat m) && (field 3 word =? Z.of_nat s)
         && (field 6 word =? Z.of_nat b) && (field 9 word =? Z.of_nat a)
         && (0 <=? reset) && (reset <? 65536) && Z.testbit reset 15
         && (field 0 reset =? Z.of_nat m) && (field 3 reset =? Z.of_nat s)
         && (field 6 reset =? Z.of_nat b) && (field 9 reset =? Z.of_nat a)).
  assert (Hall : forallb (λ m, forallb (λ s, forallb (λ b, forallb (λ a,
                   ok m s b a) (seq 0 8)) (seq 0 8)) (seq 0 8)) (seq 0 8) = true)
    by (vm_compute; reflexivity).
  assert (Hok : ok m s b a = true).
  { rewrite forallb_forall in Hall.
    specialize (Hall m (proj2 (in_seq 8 0 m) ltac:(lia))).
    rewrite forallb_forall in Hall.
    specialize (Hall s (proj2 (in_seq 8 0 s) ltac:(lia))).
    rewrite forallb_forall in Hall.
    specialize (Hall b (proj2 (in_seq 8 0 b) ltac:(lia))).
    rewrite forallb_forall in Hall.
    exact (Hall a (proj2 (in_seq 8 0 a) ltac:(lia))). }
  unfold ok in Hok.
  rewrite (list_lookup_total_correct _ _ _ Hm), (list_lookup_total_correct _ _ _ Hs),
    (list_lookup_total_correct _ _ _ Hb), (list_lookup_total_correct _ _ _ Ha) in Hok.
  cbv zeta in Hok. cbv zeta.
  repeat (apply andb_prop in Hok as [Hok ?]).
  unfold is_uint16.
  repeat match goal with
         | H : (_ <=? _) = true |- _ => apply Z.leb_le in H
         | H : (_ <? _) = true |- _ => apply Z.ltb_lt in H
         | H : (_ =? _) = true |- _ => apply Z.eqb_eq in H
         | H : negb _ = true |- _ => apply negb_true_iff in H
         end.
  repeat split; assumption.
Qed.

Lemma configuration_fields_do_not_overlap_witness :
  let word := foldl Z.lor 0
                [INA226_MODE_SHUNT_BUS_CONT; INA226_SHUNT_CONV_TIME_1100US;
                 INA226_BUS_CONV_TIME_1100US; INA226_AVERAGES_16] in
  word = 0x527 ∧
  field 0 word = 7 ∧ field 3 word = 4 ∧ field 6 word = 4 ∧ field 9 word = 2.
Proof.
  split; [reflexivity |].
  destruct (configuration_fields_do_not_overlap 7 4 4 2
              INA226_MODE_SHUNT_BUS_CONT INA226_SHUNT_CONV_TIME_1100US
              INA226_BUS_CONV_TIME_1100US INA226_AVERAGES_16
              eq_refl eq_refl eq_refl eq_refl)
    as (_ & _ & Hm & Hs & Hb & Ha & _).
  repeat split; assumption.
Defined.

(** *** Reading registers *)

Lemma short_read_word (data : list Z) :
  word_of_buffer (fill_buffer 2 data)
  = match data with
    | [] => 0
    | [b0] => b0 `mod` 256 * 256
    | b0 :: b1 :: _ => b0 `mod` 256 * 256 + b1 `mod` 256
    end.
Proof.
  assert (Hbyte : ∀ x, is_byte (x `mod` 256))
    by (intros x; apply Z.mod_pos_bound; lia).
  assert (Hzero : is_byte 0) by (split; vm_compute; congruence).
  destruct data as [| b0 [| b1 rest]]; unfold fill_buffer, byte_of; cbn.
  - reflexivity.
  - rewrite (proj1 (word_of_buffer_bytes _ _ (Hbyte b0) Hzero)). lia.
  - apply (word_of_buffer_bytes _ _ (Hbyte b0) (Hbyte b1)).
Qed.

(** X8: [readRegister16] on a bound connection.  It selects the register
    with a one-byte [Write] and, only if that succeeds, reads two bytes.
    The value is 0 with every error.  The byte count of [Read] is not
    looked at: a [Read] that reports no error but delivers one byte, or
    none, gives a value whose missing bytes are zero. *)
Theorem readRegister16_outcomes (i : INA226Driver) (c : Connection) (reg : Z) :
  connection i = Some c →
  ∃ value err i',
    readRegister16 reg i = Normal ((value, err), i') ∧
    is_uint16 value ∧ (err ≠ None → value = 0) ∧
    loadSet i' = loadSet i ∧
    (∀ msg, write_reply (device c) (history c) [reg] = Some msg →
            err = Some (BusError msg) ∧
            bus_trace i' = bus_trace i ++ [BusWrite [reg]]) ∧
    (write_reply (device c) (history c) [reg] = None →
       bus_trace i' = bus_trace i ++ [BusWrite [reg]; BusRead 2] ∧
       (∀ data msg,
          read_reply (device c) (history c ++ [BusWrite [reg]]) 2
            = (data, Some msg) →
          err = Some (BusError msg)) ∧
       (∀ data,
          read_reply (device c) (history c ++ [BusWrite [reg]]) 2
            = (data, None) →
          err = None ∧
          value = match data with
                  | [] => 0
                  | [b0] => b0 `mod` 256 * 256
                  | b0 :: b1 :: _ => b0 `mod` 256 * 256 + b1 `mod` 256
                  end)).
Proof.
  intros Hc.
  assert (Hzero : is_uint16 0) by (split; vm_compute; congruence).
  destruct (write_reply (device c) (history c) [reg]) as [msg |] eqn:Hw.
  - eexists _, _, _. split; [apply (readRegister16_write_error i c reg msg Hc Hw) |].
    split; [exact Hzero |]. split; [reflexivity |]. split; [reflexivity |].
    split; [| discriminate].
    intros msg' [= <-]. split; [reflexivity |]. apply after_calls_trace, Hc.
  - destruct (read_reply (device c) (history c ++ [BusWrite [reg]]) 2)
      as [data [msg |]] eqn:Hr.
    + eexists _, _, _.
      split; [apply (readRegister16_read_error i c reg data msg Hc Hw Hr) |].
      split; [exact Hzero |]. split; [reflexivity |]. split; [reflexivity |].
      split; [discriminate |]. intros _.
      split; [apply after_calls_trace, Hc |].
      split; [intros data' msg' [= <- <-]; reflexivity | discriminate].
    + eexists _, _, _.
      split; [apply (readRegister16_value i c reg data Hc Hw Hr) |].
      split; [apply register_word |].
      split; [intros Herr; exfalso; apply Herr; reflexivity |].
      split; [reflexivity |]. split; [discriminate |]. intros _.
      split; [apply after_calls_trace, Hc |].
      split; [discriminate |].
      intros data' [= <-]. split; [reflexivity | apply short_read_word].
Qed.

(** A device that answers a two-byte read with the single byte 0x12 and no
    error: the register reads as 0x1200. *)
Lemma readRegister16_outcomes_witness :
  let dev := Bench.steady_device [0x12] in
  readRegister16 CONFIG_REG (Bench.started dev)
  = Normal ((0x1200, None),
            after_calls [BusWrite [CONFIG_REG]; BusRead 2]
              {| history := []; device := dev |} (Bench.started dev)).
Proof.
  destruct (readRegister16_outcomes (Bench.started (Bench.steady_device [0x12]))
              {| history := []; device := Bench.steady_device [0x12] |}
              CONFIG_REG eq_refl)
    as (value & err & i' & Hrun & _ & _ & _ & _ & Hread).
  destruct (Hread eq_refl) as (_ & _ & Hvalue).
  destruct (Hvalue [0x12] eq_refl) as [-> ->].
  vm_compute in Hrun. injection Hrun as <-. vm_compute. reflexivity.
Defined.

(** X9: reading the configuration back.  When the chip answers the read of
    register 0x00 with the two bytes [Configure] sent, whatever became of
    that [Write], [readConfigurationRegister] after [Configure] returns
    the OR of the flags. *)
Theorem Configure_then_read_back (i : INA226Driver) (c : Connection)
  (confs : list Z) :
  connection i = Some c →
  Forall is_uint16 confs →
  let word := foldl Z.lor 0 confs in
  let buf := [CONFIG_REG; word `div` 256; word `mod` 256] in
  let h := history c ++ [BusWrite buf] in
  write_reply (device c) h [CONFIG_REG] = None →
  read_reply (device c) (h ++ [BusWrite [CONFIG_REG]]) 2
    = ([word `div` 256; word `mod` 256], None) →
  and_then (Configure confs) readConfigurationRegister i
  = Normal ((word, None),
            after_calls [BusWrite buf; BusWrite [CONFIG_REG]; BusRead 2] c i).
Proof.
  intros Hc Hconfs word buf h Hw Hr.
  assert (Hword : is_uint16 word)
    by (apply foldl_lor_uint16; [split; vm_compute; congruence | exact Hconfs]).
  unfold and_then, Configure. fold word.
  rewrite (wordToByteArray_big_endian word Hword).
  change ([CONFIG_REG] ++ [word `div` 256; word `mod` 256]) with buf.
  run_prog. rewrite (conn_Write_run i c buf Hc).
  destruct (BusError <$> write_reply (device c) (history c) buf) as [e |];
    cbv beta iota.
  all: unfold readConfigurationRegister; run_prog;
    rewrite (readRegister16_value _ _ CONFIG_REG _
               (after_calls_connection [BusWrite buf] c i) Hw Hr);
    cbv beta iota; rewrite after_calls_twice;
    rewrite (proj2 (register_word _) _ _ eq_refl
               (proj1 (word_bytes word Hword)) (proj2 (word_bytes word Hword)));
    pose proof (Z.div_mod word 256); replace (word `div` 256 * 256 + word `mod` 256)
      with word by lia; reflexivity.
Qed.

Lemma Configure_then_read_back_witness :
  let i := Bench.started Chip.register_file in
  and_then (Configure [INA226_MODE_SHUNT_BUS_CONT; INA226_AVERAGES_16])
    readConfigurationRegister i
  = Normal ((0x407, None),
            after_calls [BusWrite [0x00; 0x04; 0x07]; BusWrite [0x00]; BusRead 2]
              {| history := []; device := Chip.register_file |} i).
Proof.
  refine (Configure_then_read_back (Bench.started Chip.register_file)
            {| history := []; device := Chip.register_file |}
            [INA226_MODE_SHUNT_BUS_CONT; INA226_AVERAGES_16]
            eq_refl _ eq_refl eq_refl).
  repeat apply List.Forall_cons; try apply List.Forall_nil;
    vm_compute; split; congruence.
Defined.

(** *** Calibration and resolution *)

(** X10: calibrating and asking for the resolution.  With [rShunt] not
    [<= 0], when the chip answers the read of register 0x05 with the two
    bytes [Calibrate] sent, [CurrentResolution] after [Calibrate] returns
    [0.00512 / (float64(calibrationValue) * rShunt)] for the value that
    was written. *)
Theorem Calibrate_then_CurrentResolution `{MathPkg} `{FloatConv}
  (i : INA226Driver) (c : Connection) (rShuntValue iMaxValue : float) :
  connection i = Some c →
  (rShuntValue <=? 0)%float = false →
  let cv := calibrationValue (calibrated_LoadSet rShuntValue iMaxValue i) in
  let buf := [CALIBRATION_REG; cv `div` 256; cv `mod` 256] in
  let h := history c ++ [BusWrite buf] in
  write_reply (device c) h [CALIBRATION_REG] = None →
  read_reply (device c) (h ++ [BusWrite [CALIBRATION_REG]]) 2
    = ([cv `div` 256; cv `mod` 256], None) →
  and_then (Calibrate rShuntValue iMaxValue) CurrentResolution i
  = Normal (((0.00512 / (float_of_Z cv * rShuntValue))%float, None),
            after_calls [BusWrite buf; BusWrite [CALIBRATION_REG]; BusRead 2] c
              (set_iMax iMaxValue (set_rShunt rShuntValue i))).
Proof.
  intros Hc Hle cv buf h Hw Hr.
  assert (Hcv : is_uint16 cv) by apply calibrationValue_uint16.
  unfold and_then. run_prog.
  rewrite (Calibrate_run i c rShuntValue iMaxValue Hc). fold cv buf.
  cbv beta iota.
  set (i1 := after_calls [BusWrite buf] c
               (set_iMax iMaxValue (set_rShunt rShuntValue i))).
  rewrite (CurrentResolution_reads i1 Hle).
  rewrite (readRegister16_value i1 _ CALIBRATION_REG _
             (after_calls_connection [BusWrite buf] c _) Hw Hr).
  unfold i1. rewrite after_calls_twice.
  rewrite (proj2 (register_word _) _ _ eq_refl
             (proj1 (word_bytes cv Hcv)) (proj2 (word_bytes cv Hcv))).
  pose proof (Z.div_mod cv 256).
  replace (cv `div` 256 * 256 + cv `mod` 256) with cv by lia.
  reflexivity.
Qed.

Lemma Calibrate_then_CurrentResolution_witness :
  let i := Bench.started Chip.register_file in
  and_then (@Calibrate Bench.ideal_math Bench.wrapping_conv 0.002 10)
    CurrentResolution i
  = Normal ((0.0004%float, None),
            after_calls [BusWrite [0x05; 0x19; 0x00]; BusWrite [0x05]; BusRead 2]
              {| history := []; device := Chip.register_file |}
              (set_iMax 10 (set_rShunt 0.002 i))).
Proof.
  exact (@Calibrate_then_CurrentResolution Bench.ideal_math Bench.wrapping_conv
           (Bench.started Chip.register_file)
           {| history := []; device := Chip.register_file |}
           0.002%float 10%float eq_refl eq_refl eq_refl eq_refl).
Defined.

(** X11: [CurrentResolution] does not look at the calibration it reads.
    With a positive finite stored [rShunt] and a calibration register that
    reads 0 (as after a reset of the chip, or when the [Write] of
    [Calibrate] failed), it divides by zero and returns +infinity with no
    error. *)
Theorem CurrentResolution_zero_calibration (i : INA226Driver) (c : Connection)
  (data : list Z) (m : positive) (e : Z) :
  connection i = Some c →
  Prim2SF (rShunt (loadSet i)) = S754_finite false m e →
  write_reply (device c) (history c) [CALIBRATION_REG] = None →
  read_reply (device c) (history c ++ [BusWrite [CALIBRATION_REG]]) 2
    = (data, None) →
  word_of_buffer (fill_buffer 2 data) = 0 →
  CurrentResolution i
  = Normal ((infinity, None),
            after_calls [BusWrite [CALIBRATION_REG]; BusRead 2] c i).
Proof.
  intros Hc Hr Hw Hread Hzero.
  assert (Hle : (rShunt (loadSet i) <=? 0)%float = false).
  { rewrite leb_spec, Hr. reflexivity. }
  rewrite (CurrentResolution_reads i Hle).
  rewrite (readRegister16_value i c CALIBRATION_REG data Hc Hw Hread), Hzero.
  do 3 f_equal. apply Prim2SF_inj.
  rewrite div_spec, mul_spec, Hr. reflexivity.
Qed.

(** A driver holding [rShunt = 0.002] on a chip whose registers are all
    zero. *)
Lemma CurrentResolution_zero_calibration_witness :
  let i := set_rShunt 0.002 (Bench.started Chip.register_file) in
  CurrentResolution i
  = Normal ((infinity, None),
            after_calls [BusWrite [CALIBRATION_REG]; BusRead 2]
              {| history := []; device := Chip.register_file |} i).
Proof.
  refine (CurrentResolution_zero_calibration
            (set_rShunt 0.002 (Bench.started Chip.register_file))
            {| history := []; device := Chip.register_file |}
            [0; 0] _ _ eq_refl _ eq_refl eq_refl eq_refl).
  vm_compute. reflexivity.
Defined.

(** *** The shunt current *)

Lemma ReadShuntCurrentRegister_value (i : INA226Driver) (c : Connection)
  (data : list Z) :
  connection i = Some c →
  write_reply (device c) (history c) [CURRENT_REG] = None →
  read_reply (device c) (history c ++ [BusWrite [CURRENT_REG]]) 2 = (data, None) →
  ReadShuntCurrentRegister i
  = Normal ((int16_of_uint16 (word_of_buffer (fill_buffer 2 data)), None),
            after_calls [BusWrite [CURRENT_REG]; BusRead 2] c i).
Proof.
  intros Hc Hw Hr. unfold ReadShuntCurrentRegister. run_prog.
  rewrite (readRegister16_value i c CURRENT_REG data Hc Hw Hr). reflexivity.
Qed.

(** X12: [ReadShuntCurrent] reads the current register 0x04 first and asks
    for the resolution afterwards.  So with a stored [rShunt <= 0] the
    validation error comes only after the register was read on the bus;
    otherwise the result is the signed (two's complement) register value
    times [0.00512 / (float64(calibration) * rShunt)], after four bus calls:
    select 0x04, read, select 0x05, read. *)
Theorem ReadShuntCurrent_reads_then_checks (i : INA226Driver) (c : Connection)
  (data : list Z) :
  connection i = Some c →
  write_reply (device c) (history c) [CURRENT_REG] = None →
  read_reply (device c) (history c ++ [BusWrite [CURRENT_REG]]) 2 = (data, None) →
  let raw := word_of_buffer (fill_buffer 2 data) in
  let signed := if raw <? 32768 then raw else raw - 65536 in
  let h := history c ++ [BusWrite [CURRENT_REG]; BusRead 2] in
  let i1 := after_calls [BusWrite [CURRENT_REG]; BusRead 2] c i in
  -32768 <= signed < 32768 ∧ signed `mod` 65536 = raw ∧
  ReadShuntCurrentRegister i = Normal ((signed, None), i1) ∧
  ((rShunt (loadSet i) <=? 0)%float = true →
     ReadShuntCurrent i
     = Normal ((0%float, Some (RShuntNotCorrect (rShunt (loadSet i)))), i1)) ∧
  ((rShunt (loadSet i) <=? 0)%float = false →
     ∀ data',
       write_reply (device c) h [CALIBRATION_REG] = None →
       read_reply (device c) (h ++ [BusWrite [CALIBRATION_REG]]) 2
         = (data', None) →
       let calibration := word_of_buffer (fill_buffer 2 data') in
       ReadShuntCurrent i
       = Normal (((float_of_Z signed
                   * (0.00512 / (float_of_Z calibration * rShunt (loadSet i))))%float,
                  None),
                 after_calls [BusWrite [CURRENT_REG]; BusRead 2;
                              BusWrite [CALIBRATION_REG]; BusRead 2] c i)).
Proof.
  intros Hc Hw Hr raw signed h i1.
  assert (Hraw : is_uint16 raw) by apply register_word.
  pose proof (ReadShuntCurrentRegister_value i c data Hc Hw Hr) as Hreg.
  fold i1 in Hreg.
  unfold is_uint16 in Hraw.
  split; [unfold signed; destruct (Z.ltb_spec raw 32768); lia |].
  split.
  { unfold signed. destruct (Z.ltb_spec raw 32768).
    - apply Z.mod_small. lia.
    - symmetry. apply (Z.mod_unique _ _ (-1)); lia. }
  split; [exact Hreg |]. split.
  - intros Hle. unfold ReadShuntCurrent. run_prog. rewrite Hreg. cbv beta iota.
    rewrite (CurrentResolution_rejects i1 Hle). reflexivity.
  - intros Hle data' Hw' Hr' calibration.
    unfold ReadShuntCurrent. run_prog. rewrite Hreg. cbv beta iota.
    rewrite (CurrentResolution_reads i1 Hle).
    rewrite (readRegister16_value i1 _ CALIBRATION_REG data'
               (after_calls_connection _ c i) Hw' Hr').
    unfold i1. rewrite after_calls_twice. reflexivity.
Qed.

(** On a driver that was never calibrated the current register is read,
    and then the validation error returned. *)
Lemma ReadShuntCurrent_reads_then_checks_witness :
  let dev := Bench.steady_device [0xFF; 0x9C] in
  ReadShuntCurrent (Bench.started dev)
  = Normal ((0%float, Some (RShuntNotCorrect 0)),
            after_calls [BusWrite [CURRENT_REG]; BusRead 2]
              {| history := []; device := dev |} (Bench.started dev)).
Proof.
  exact (proj1 (proj2 (proj2 (proj2
           (ReadShuntCurrent_reads_then_checks
              (Bench.started (Bench.steady_device [0xFF; 0x9C]))
              {| history := []; device := Bench.steady_device [0xFF; 0x9C] |}
              [0xFF; 0x9C] eq_refl eq_refl eq_refl)))) eq_refl).
Defined.

(** *** Start, and before it *)

(** X13: [Start] asks the connector for a connection at the configured
    address (default 0x40) on the configured bus (default: the
    connector's).  With an error it returns the error and makes no bus
    call, but has stored whatever connection came with it.  Without one it
    writes an all-zero configuration ([Configure] without flags) and
    returns nil even when that [Write] fails; if the connector gave
    neither a connection nor an error, it panics. *)
Theorem Start_drops_the_error_of_Configure (connector : Connector)
  (config : Config) (i : INA226Driver) :
  let bus := GetBusOrDefault config (connector_GetDefaultBus connector) in
  let address := GetAddressOrDefault config 0x40 in
  let answer := connector_GetConnection connector address bus in
  (∀ conn msg,
     answer = (conn, Some msg) →
     Start connector config i
     = Normal (Some (BusError msg), assign_connection conn i)) ∧
  (∀ c,
     answer = (Some c, None) →
     Start connector config i
     = Normal (None, after_calls [BusWrite [0x00; 0x00; 0x00]] c i)) ∧
  (answer = (None, None) →
   Start connector config i = Panicked NilDereference).
Proof.
  intros bus address answer. unfold Start. fold bus.
  change (GetAddressOrDefault config ina226I2CAddress) with address.
  fold answer.
  split; [| split].
  - intros conn msg ->. reflexivity.
  - intros c ->. run_prog. cbv beta iota. unfold Configure. run_prog.
    rewrite (conn_Write_run (assign_connection (Some c) i) c _ eq_refl).
    destruct (write_reply (device c) (history c)
                ([CONFIG_REG] ++ wordToByteArray (foldl Z.lor 0 [])));
      reflexivity.
  - intros ->. reflexivity.
Qed.

(** X14: before [Start] the connection is nil, and every method that goes
    to the bus panics instead of returning an error; [CurrentResolution]
    panics too once a positive [rShunt] is stored, and returns its
    validation error only while [rShunt <= 0]. *)
Theorem methods_panic_without_connection `{MathPkg} `{FloatConv}
  (i : INA226Driver) :
  connection i = None →
  (∀ defaultName, connection (NewINA226Driver defaultName) = None) ∧
  (∀ confs, Configure confs i = Panicked NilDereference) ∧
  (∀ rShuntValue iMaxValue,
     Calibrate rShuntValue iMaxValue i = Panicked NilDereference) ∧
  Reset i = Panicked NilDereference ∧
  (∀ reg, readRegister16 reg i = Panicked NilDereference) ∧
  ReadBusVoltage i = Panicked NilDereference ∧
  ReadShuntVoltage i = Panicked NilDereference ∧
  ReadShuntCurrent i = Panicked NilDereference ∧
  ((rShunt (loadSet i) <=? 0)%float = false →
   CurrentResolution i = Panicked NilDereference) ∧
  ((rShunt (loadSet i) <=? 0)%float = true →
   CurrentResolution i
   = Normal ((0%float, Some (RShuntNotCorrect (rShunt (loadSet i)))), i)).
Proof.
  intros Hnil.
  assert (Hwrite : ∀ buf, conn_Write buf i = Panicked NilDereference)
    by (intros buf; unfold conn_Write; rewrite Hnil; reflexivity).
  assert (Hread : ∀ reg, readRegister16 reg i = Panicked NilDereference)
    by (intros reg; unfold readRegister16; run_prog; rewrite Hwrite; reflexivity).
  split; [reflexivity |].
  split; [intros confs; unfold Configure; run_prog; rewrite Hwrite; reflexivity |].
  split.
  { intros rShuntValue iMaxValue. unfold Calibrate. run_prog. cbv beta iota.
    unfold conn_Write. cbn [connection set_iMax set_rShunt]. rewrite Hnil.
    reflexivity. }
  split; [unfold Reset; run_prog; rewrite Hwrite; reflexivity |].
  split; [exact Hread |].
  split; [unfold ReadBusVoltage; run_prog; rewrite Hread; reflexivity |].
  split; [unfold ReadShuntVoltage; run_prog; rewrite Hread; reflexivity |].
  split.
  { unfold ReadShuntCurrent, ReadShuntCurrentRegister. run_prog.
    rewrite Hread. reflexivity. }
  split.
  - intros Hle. rewrite (CurrentResolution_reads i Hle), Hread. reflexivity.
  - apply CurrentResolution_rejects.
Qed.

Lemma methods_panic_without_connection_witness :
  let i := NewINA226Driver "INA226-1" in
  @Calibrate Bench.ideal_math Bench.wrapping_conv 0.002 10 i
  = Panicked NilDereference ∧
  CurrentResolution i = Normal ((0%float, Some (RShuntNotCorrect 0)), i) ∧
  CurrentResolution (set_rShunt 0.002 i) = Panicked NilDereference.
Proof.
  pose proof (@methods_panic_without_connection Bench.ideal_math
                Bench.wrapping_conv (NewINA226Driver "INA226-1") eq_refl)
    as (_ & _ & Hcal & _ & _ & _ & _ & _ & _ & Hres).
  pose proof (@methods_panic_without_connection Bench.ideal_math
                Bench.wrapping_conv
                (set_rShunt 0.002 (NewINA226Driver "INA226-1")) eq_refl)
    as (_ & _ & _ & _ & _ & _ & _ & _ & Hres' & _).
  split; [apply Hcal |]. split; [exact (Hres eq_refl) | exact (Hres' eq_refl)].
Defined.

End DriverMore.

(** ** More of the NanoPi NEO adaptor *)

Section BoardMore.
Import NanoPiNeo.

Ltac run_prog :=
  unfold mbind, mret, prog_mbind, prog_mret, prog_bind, prog_ret,
    prog_get, prog_modify, prog_panic, and_then.

(** *** Digital pins *)

Lemma DigitalPin_unknown_run (pin_name dir : string) (w : World) :
  pins !! pin_name = None →
  DigitalPin pin_name dir w = Normal ((None, Some NotAValidPin), w).
Proof.
  intros Hpin. unfold DigitalPin, translatePin. rewrite Hpin. reflexivity.
Qed.

(** A cached pin only has its direction set. *)
Lemma DigitalPin_cached_run (pin_name dir : string) (w : World)
  (entry : sysfsPin) (p : sysfs_DigitalPin) :
  pins !! pin_name = Some entry →
  map_index (digitalPins (adaptor w)) (pin entry) = Some p →
  DigitalPin pin_name dir w
  = Normal (match reply (kernel w) (calls (kernel w))
                    (DigitalDirection (gpio p) dir) with
            | Some msg => (None, Some (SysfsError msg))
            | None => (Some p, None)
            end,
            with_calls [DigitalDirection (gpio p) dir] w).
Proof.
  intros Hpin Hp. unfold DigitalPin, translatePin. rewrite Hpin.
  run_prog. unfold get_adaptor. cbv beta iota. rewrite Hp. cbv beta iota.
  rewrite Hp. cbv beta iota. rewrite sys_call_run.
  destruct (reply (kernel w) (calls (kernel w))
              (DigitalDirection (gpio p) dir)); [reflexivity |].
  change (SysfsError <$> None) with (@None error). cbv beta iota.
  rewrite with_calls_adaptor, Hp. reflexivity.
Qed.

(** A new pin is put in the cache, then exported, then given its
    direction. *)
Lemma DigitalPin_first_run (pin_name dir : string) (w : World)
  (entry : sysfsPin) :
  pins !! pin_name = Some entry →
  map_index (digitalPins (adaptor w)) (pin entry) = None →
  let i := pin entry in
  let w1 := with_adaptor (set_digitalPin i (Some {| gpio := i |})) w in
  DigitalPin pin_name dir w
  = match reply (kernel w) (calls (kernel w)) (DigitalExport i) with
    | Some msg =>
        Normal ((None, Some (SysfsError msg)), with_calls [DigitalExport i] w1)
    | None =>
        Normal (match reply (kernel w) (calls (kernel w) ++ [DigitalExport i])
                        (DigitalDirection i dir) with
                | Some msg => (None, Some (SysfsError msg))
                | None => (Some {| gpio := i |}, None)
                end,
                with_calls [DigitalExport i; DigitalDirection i dir] w1)
    end.
Proof.
  intros Hpin Hp i w1. unfold DigitalPin, translatePin. rewrite Hpin.
  run_prog. unfold get_adaptor, modify_adaptor. cbv beta iota.
  rewrite Hp. fold i. cbv beta iota. rewrite sys_call_run.
  change {| adaptor := set_digitalPin i (Some {| gpio := i |}) (adaptor w);
            kernel := kernel w |} with w1.
  change (reply (kernel w1)) with (reply (kernel w)).
  change (calls (kernel w1)) with (calls (kernel w)).
  destruct (reply (kernel w) (calls (kernel w)) (DigitalExport i));
    [reflexivity |].
  change (SysfsError <$> None) with (@None error). cbv beta iota.
  rewrite with_calls_adaptor.
  assert (Hcached : map_index (digitalPins (adaptor w1)) i
                    = Some {| gpio := i |}).
  { unfold w1, with_adaptor, map_index.
    cbn [adaptor set_digitalPin digitalPins]. rewrite lookup_insert_eq.
    reflexivity. }
  rewrite Hcached. cbv beta iota. cbn [gpio].
  rewrite sys_call_run, with_calls_reply, with_calls_calls, with_calls_twice.
  change (reply (kernel w1)) with (reply (kernel w)).
  change (calls (kernel w1)) with (calls (kernel w)).
  change ([DigitalExport i] ++ [DigitalDirection i dir])
    with [DigitalExport i; DigitalDirection i dir].
  destruct (reply (kernel w) (calls (kernel w) ++ [DigitalExport i])
              (DigitalDirection i dir)); [reflexivity |].
  change (SysfsError <$> None) with (@None error). cbv beta iota.
  rewrite with_calls_adaptor, Hcached. reflexivity.
Qed.

(** X15: a pin name that is not in the table is refused with "Not a valid
    pin" by [DigitalPin], [DigitalRead] and [DigitalWrite] alike, before
    anything is done: no sysfs call, no read or write of a pin, nothing
    cached. *)
Theorem unknown_pin_names_are_refused (pin_name : string) (w : World) :
  pins !! pin_name = None →
  (∀ dir, DigitalPin pin_name dir w = Normal ((None, Some NotAValidPin), w)) ∧
  (∀ pin_Read,
     DigitalRead pin_Read pin_name w = Normal ((0, Some NotAValidPin), w)) ∧
  (∀ pin_Write val,
     DigitalWrite pin_Write pin_name val w = Normal (Some NotAValidPin, w)).
Proof.
  intros Hpin. split; [| split].
  - intros dir. apply DigitalPin_unknown_run, Hpin.
  - intros pin_Read. unfold DigitalRead. run_prog.
    rewrite (DigitalPin_unknown_run pin_name _ w Hpin). reflexivity.
  - intros pin_Write val. unfold DigitalWrite. run_prog.
    rewrite (DigitalPin_unknown_run pin_name _ w Hpin). reflexivity.
Qed.

Lemma unknown_pin_names_are_refused_witness :
  let w := Bench.fresh_world Bench.obliging_kernel in
  DigitalPin "GPIOA7" "out" w = Normal ((None, Some NotAValidPin), w).
Proof.
  exact (proj1 (unknown_pin_names_are_refused "GPIOA7"
                  (Bench.fresh_world Bench.obliging_kernel) eq_refl) "out").
Defined.

(** X16: the first [DigitalPin] for a name of the table makes the handle of
    the table's GPIO number, exports it and sets its direction, in that
    order, and returns it when both calls succeed.  The handle is put in
    the cache before it is exported, so it is cached in every case, also
    when the export fails and the error is returned. *)
Theorem DigitalPin_caches_before_export (pin_name dir : string) (w : World)
  (entry : sysfsPin) :
  pins !! pin_name = Some entry →
  map_index (digitalPins (adaptor w)) (pin entry) = None →
  let i := pin entry in
  let handle := {| gpio := i |} in
  ∃ r w',
    DigitalPin pin_name dir w = Normal (r, w') ∧
    map_index (digitalPins (adaptor w')) i = Some handle ∧
    (∀ msg,
       reply (kernel w) (calls (kernel w)) (DigitalExport i) = Some msg →
       r = (None, Some (SysfsError msg)) ∧
       calls (kernel w') = calls (kernel w) ++ [DigitalExport i]) ∧
    (reply (kernel w) (calls (kernel w)) (DigitalExport i) = None →
       calls (kernel w')
       = calls (kernel w) ++ [DigitalExport i; DigitalDirection i dir] ∧
       (∀ msg,
          reply (kernel w) (calls (kernel w) ++ [DigitalExport i])
            (DigitalDirection i dir) = Some msg →
          r = (None, Some (SysfsError msg))) ∧
       (reply (kernel w) (calls (kernel w) ++ [DigitalExport i])
          (DigitalDirection i dir) = None →
        r = (Some handle, None))).
Proof.
  intros Hpin Hp i handle.
  pose proof (DigitalPin_first_run pin_name dir w entry Hpin Hp) as Hrun.
  cbv zeta in Hrun. fold i in Hrun.
  assert (Hcached : ∀ ops,
             map_index
               (digitalPins
                  (adaptor (with_calls ops
                              (with_adaptor (set_digitalPin i (Some handle)) w))))
               i = Some handle).
  { intros ops. cbn. unfold map_index. rewrite lookup_insert_eq. reflexivity. }
  destruct (reply (kernel w) (calls (kernel w)) (DigitalExport i)) as [msg |].
  - eexists _, _. split; [exact Hrun |]. split; [apply Hcached |].
    split; [intros msg' [= <-]; split; reflexivity | discriminate].
  - eexists _, _. split; [exact Hrun |]. split; [apply Hcached |].
    split; [discriminate |]. intros _. split; [reflexivity |].
    destruct (reply (kernel w) (calls (kernel w) ++ [DigitalExport i])
                (DigitalDirection i dir)) as [msg |].
    + split; [intros msg' [= <-]; reflexivity | discriminate].
    + split; [discriminate | reflexivity].
Qed.

Lemma DigitalPin_caches_before_export_witness :
  let w := Bench.fresh_world
             (Bench.kernel_failing (DigitalExport 203) "permission denied") in
  ∃ w',
    DigitalPin "GPIOG11" "in" w
    = Normal ((None, Some (SysfsError "permission denied")), w') ∧
    map_index (digitalPins (adaptor w')) 203 = Some {| gpio := 203 |}.
Proof.
  destruct (DigitalPin_caches_before_export "GPIOG11" "in"
              (Bench.fresh_world
                 (Bench.kernel_failing (DigitalExport 203) "permission denied"))
              {| pin := 203; pwmPin := -1 |} eq_refl eq_refl)
    as (r & w' & Hrun & Hcached & Hfail & _).
  exists w'. destruct (Hfail "permission denied" eq_refl) as [-> _].
  split; [exact Hrun | exact Hcached].
Defined.

(** X17: an export that failed is never tried again.  After a first
    [DigitalPin] whose export failed, the pin is in the cache, so the next
    [DigitalPin] for that name makes no export call: it sets the direction
    of the pin that was never exported and, if that call succeeds, returns
    the pin without error. *)
Theorem DigitalPin_does_not_retry_export (pin_name dir dir' : string)
  (w : World) (entry : sysfsPin) (msg : string) :
  pins !! pin_name = Some entry →
  map_index (digitalPins (adaptor w)) (pin entry) = None →
  let i := pin entry in
  reply (kernel w) (calls (kernel w)) (DigitalExport i) = Some msg →
  and_then (DigitalPin pin_name dir) (DigitalPin pin_name dir') w
  = Normal (match reply (kernel w) (calls (kernel w) ++ [DigitalExport i])
                    (DigitalDirection i dir') with
            | Some msg' => (None, Some (SysfsError msg'))
            | None => (Some {| gpio := i |}, None)
            end,
            with_calls [DigitalExport i; DigitalDirection i dir']
              (with_adaptor (set_digitalPin i (Some {| gpio := i |})) w)).
Proof.
  intros Hpin Hp i Hexport. unfold and_then. run_prog.
  rewrite (DigitalPin_first_run pin_name dir w entry Hpin Hp). cbv zeta.
  fold i. rewrite Hexport. cbv beta iota.
  set (w1 := with_adaptor (set_digitalPin i (Some {| gpio := i |})) w).
  rewrite (DigitalPin_cached_run pin_name dir' (with_calls [DigitalExport i] w1)
             entry {| gpio := i |} Hpin).
  - rewrite with_calls_twice. reflexivity.
  - cbn. unfold map_index. rewrite lookup_insert_eq. reflexivity.
Qed.

Lemma DigitalPin_does_not_retry_export_witness :
  let w := Bench.fresh_world
             (Bench.kernel_failing (DigitalExport 203) "permission denied") in
  and_then (DigitalPin "GPIOG11" "in") (DigitalPin "GPIOG11" "in") w
  = Normal ((Some {| gpio := 203 |}, None),
            with_calls [DigitalExport 203; DigitalDirection 203 "in"]
              (with_adaptor (set_digitalPin 203 (Some {| gpio := 203 |})) w)).
Proof.
  exact (DigitalPin_does_not_retry_export "GPIOG11" "in" "in"
           (Bench.fresh_world
              (Bench.kernel_failing (DigitalExport 203) "permission denied"))
           {| pin := 203; pwmPin := -1 |} "permission denied"
           eq_refl eq_refl eq_refl).
Defined.

(** X18: on a pin that is cached already, [DigitalWrite] first sets the
    direction to "out" and [DigitalRead] to "in", at every call; the pin is
    written or read only when that call succeeds, on the cached handle,
    and otherwise its error is returned. *)
Theorem pin_io_sets_direction_first (pin_name : string) (w : World)
  (entry : sysfsPin) (p : sysfs_DigitalPin)
  (pin_Read : sysfs_DigitalPin → prog World (Z * option error))
  (pin_Write : sysfs_DigitalPin → Z → prog World (option error)) :
  pins !! pin_name = Some entry →
  map_index (digitalPins (adaptor w)) (pin entry) = Some p →
  let out := DigitalDirection (gpio p) "out" in
  let inp := DigitalDirection (gpio p) "in" in
  (∀ val,
     DigitalWrite pin_Write pin_name val w
     = match reply (kernel w) (calls (kernel w)) out with
       | Some msg => Normal (Some (SysfsError msg), with_calls [out] w)
       | None => pin_Write p val (with_calls [out] w)
       end) ∧
  DigitalRead pin_Read pin_name w
  = match reply (kernel w) (calls (kernel w)) inp with
    | Some msg => Normal ((0, Some (SysfsError msg)), with_calls [inp] w)
    | None => pin_Read p (with_calls [inp] w)
    end.
Proof.
  intros Hpin Hp out inp. split.
  - intros val. unfold DigitalWrite. run_prog.
    rewrite (DigitalPin_cached_run pin_name sysfs_OUT w entry p Hpin Hp).
    fold out. change (DigitalDirection (gpio p) sysfs_OUT) with out.
    destruct (reply (kernel w) (calls (kernel w)) out); reflexivity.
  - unfold DigitalRead. run_prog.
    rewrite (DigitalPin_cached_run pin_name sysfs_IN w entry p Hpin Hp).
    change (DigitalDirection (gpio p) sysfs_IN) with inp.
    destruct (reply (kernel w) (calls (kernel w)) inp); reflexivity.
Qed.

(** With the direction refused, nothing is written: the result does not
    depend on what [Write] would do. *)
Lemma pin_io_sets_direction_first_witness :
  let w := Bench.world_after (DigitalPin "GPIOC0" "in")
             (Bench.fresh_world
                (Bench.kernel_failing (DigitalDirection 64 "out")
                                      "operation not permitted")) in
  DigitalWrite (λ _ _, prog_panic NilDereference) "GPIOC0" 1 w
  = Normal (Some (SysfsError "operation not permitted"),
            with_calls [DigitalDirection 64 "out"] w).
Proof.
  refine (proj1 (pin_io_sets_direction_first "GPIOC0"
                   (Bench.world_after (DigitalPin "GPIOC0" "in")
                      (Bench.fresh_world
                         (Bench.kernel_failing (DigitalDirection 64 "out")
                                               "operation not permitted")))
                   {| pin := 64; pwmPin := -1 |} {| gpio := 64 |}
                   (λ _, prog_panic NilDereference)
                   (λ _ _, prog_panic NilDereference) eq_refl _) 1).
  vm_compute. reflexivity.
Defined.

(** X19: no two names of the pin table share a GPIO number, so two
    different names never share a slot of the digital pin cache. *)
Theorem pin_table_is_injective (name1 name2 : string) (entry1 entry2 : sysfsPin) :
  pins !! name1 = Some entry1 →
  pins !! name2 = Some entry2 →
  name1 ≠ name2 →
  pin entry1 ≠ pin entry2 ∧ (translatePin name1).1 ≠ (translatePin name2).1.
Proof.
  intros H1 H2 Hne.
  assert (Hpin : pin entry1 ≠ pin entry2).
  { apply elem_of_list_to_map_2 in H1. apply elem_of_list_to_map_2 in H2.
    repeat match goal with
           | H : _ ∈ _ :: _ |- _ => apply elem_of_cons in H as [H | H]
           | H : _ ∈ [] |- _ => apply elem_of_nil in H; destruct H
           end.
    all: injection H1 as -> ->; injection H2 as -> ->.
    all: first [exfalso; apply Hne; reflexivity | cbn; discriminate]. }
  split; [exact Hpin |].
  unfold translatePin. rewrite H1, H2. exact Hpin.
Qed.

Lemma pin_table_is_injective_witness :
  (translatePin "GPIOA2").1 ≠ (translatePin "GPIOA3").1.
Proof.
  refine (proj2 (pin_table_is_injective "GPIOA2" "GPIOA3"
                   {| pin := 14; pwmPin := -1 |} {| pin := 16; pwmPin := -1 |}
                   eq_refl eq_refl _)).
  discriminate.
Defined.

(** *** Buses *)

Lemma range_check_passes (bus : Z) :
  0 <= bus <= 2 → (bus <? 0) || (bus >? 2) = false.
Proof.
  intros Hbus. apply orb_false_iff. rewrite Z.ltb_ge, Z.gtb_ltb, Z.ltb_ge. lia.
Qed.

(** An open bus is handed out again as it is. *)
Lemma GetConnection_cached_run (address bus : Z) (w : World)
  (dev : sysfs_I2cDevice) :
  0 <= bus <= 2 →
  i2cBuses (adaptor w) !! Z.to_nat bus = Some (Some dev) →
  GetConnection address bus w
  = Normal ((Some {| conn_bus := Some dev; conn_address := address |}, None), w).
Proof.
  intros Hbus Hslot. unfold GetConnection.
  rewrite (range_check_passes bus Hbus). run_prog. unfold get_adaptor.
  cbv beta iota. rewrite Hslot. cbv beta iota. rewrite Hslot. reflexivity.
Qed.

Lemma GetConnection_first_run (address bus : Z) (w : World) :
  0 <= bus <= 2 →
  i2cBuses (adaptor w) !! Z.to_nat bus = Some None →
  let path := "/dev/i2c-" +:+ pretty bus in
  let dev := Some {| location := path |} in
  GetConnection address bus w
  = Normal ((Some {| conn_bus := dev; conn_address := address |},
             SysfsError <$> reply (kernel w) (calls (kernel w)) (I2cOpen path)),
            with_calls [I2cOpen path]
              (with_adaptor (set_i2cBus (Z.to_nat bus) dev) w)).
Proof.
  intros Hbus Hslot path dev. unfold GetConnection.
  rewrite (range_check_passes bus Hbus).
  run_prog. unfold get_adaptor, modify_adaptor. cbv beta iota.
  rewrite Hslot. cbv beta iota. rewrite sys_call_run. cbv beta iota.
  cbn [adaptor with_calls set_i2cBus i2cBuses].
  rewrite list_lookup_insert_eq by (apply lookup_lt_Some in Hslot; exact Hslot).
  reflexivity.
Qed.

(** X20: connections on one bus share one device, which is opened once.
    After a first [GetConnection] on a bus that was not open, a second one
    on that bus, for any address, makes no sysfs call and returns a
    connection on the same device.  It returns no error, also when the
    opening had failed: the device that could not be opened stays in the
    table and is handed out. *)
Theorem GetConnection_opens_a_bus_once (address address' bus : Z) (w : World) :
  0 <= bus <= 2 →
  i2cBuses (adaptor w) !! Z.to_nat bus = Some None →
  let path := "/dev/i2c-" +:+ pretty bus in
  let dev := Some {| location := path |} in
  let w' := with_calls [I2cOpen path]
              (with_adaptor (set_i2cBus (Z.to_nat bus) dev) w) in
  GetConnection address bus w
  = Normal ((Some {| conn_bus := dev; conn_address := address |},
             SysfsError <$> reply (kernel w) (calls (kernel w)) (I2cOpen path)),
            w') ∧
  GetConnection address' bus w'
  = Normal ((Some {| conn_bus := dev; conn_address := address' |}, None), w') ∧
  and_then (GetConnection address bus) (GetConnection address' bus) w
  = Normal ((Some {| conn_bus := dev; conn_address := address' |}, None), w').
Proof.
  intros Hbus Hslot path dev w'.
  pose proof (GetConnection_first_run address bus w Hbus Hslot) as Hfirst.
  assert (Hsecond : GetConnection address' bus w'
                    = Normal ((Some {| conn_bus := dev;
                                       conn_address := address' |}, None), w')).
  { apply GetConnection_cached_run; [exact Hbus |].
    cbn [adaptor with_calls with_adaptor w' set_i2cBus i2cBuses].
    apply list_lookup_insert_eq. apply lookup_lt_Some in Hslot. exact Hslot. }
  split; [exact Hfirst |]. split; [exact Hsecond |].
  unfold and_then. run_prog. rewrite Hfirst. exact Hsecond.
Qed.

(** /dev/i2c-1 cannot be opened: the first call returns the error, the
    second a connection and no error. *)
Lemma GetConnection_opens_a_bus_once_witness :
  let w := Bench.fresh_world
             (Bench.kernel_failing (I2cOpen "/dev/i2c-1")
                                   "no such file or directory") in
  let dev := Some {| location := "/dev/i2c-1" |} in
  let w' := with_calls [I2cOpen "/dev/i2c-1"]
              (with_adaptor (set_i2cBus 1 dev) w) in
  GetConnection 0x40 1 w
  = Normal ((Some {| conn_bus := dev; conn_address := 0x40 |},
             Some (SysfsError "no such file or directory")), w') ∧
  GetConnection 0x41 1 w'
  = Normal ((Some {| conn_bus := dev; conn_address := 0x41 |}, None), w').
Proof.
  pose proof (GetConnection_opens_a_bus_once 0x40 0x41 1
                (Bench.fresh_world
                   (Bench.kernel_failing (I2cOpen "/dev/i2c-1")
                                         "no such file or directory"))
                ltac:(lia) eq_refl) as (Hfirst & Hsecond & _).
  split; [exact Hfirst | exact Hsecond].
Defined.

(** *** PWM pins *)

(** X21: since every name reads as channel 0, all names share one PWM pin.
    After a first [PWMPin] that set channel 0 up, [PWMPin] for any other
    name makes no sysfs call and returns that same pin. *)
Theorem PWMPin_gives_every_name_the_same_pin (name name' : string) (w : World) :
  pinmap (adaptor w) = ∅ →
  map_index (pwmPins (adaptor w)) 0 = None →
  let setup := [PwmExport 0; PwmEnable 0 false; PwmInvertPolarity 0 false;
                PwmEnable 0 true; PwmSetPeriod 0 10000000] in
  failures (reply (kernel w)) (calls (kernel w)) setup = [] →
  let w' := with_calls setup
              (with_adaptor (set_pwmPin 0 (Some {| channel := 0 |})) w) in
  PWMPin name w = Normal ((Some {| channel := 0 |}, None), w') ∧
  PWMPin name' w' = Normal ((Some {| channel := 0 |}, None), w') ∧
  and_then (PWMPin name) (PWMPin name') w
  = Normal ((Some {| channel := 0 |}, None), w').
Proof.
  intros Hnil Hp setup Hok w'.
  pose proof (PWMPin_created name w Hnil Hp) as Hfirst.
  cbv zeta in Hfirst. fold setup in Hfirst. rewrite Hok in Hfirst. fold w' in Hfirst.
  assert (Hsecond : PWMPin name' w'
                    = Normal ((Some {| channel := 0 |}, None), w')).
  { apply PWMPin_cached; [exact Hnil |].
    cbn [adaptor with_calls with_adaptor w' set_pwmPin pwmPins].
    unfold map_index. rewrite lookup_insert_eq. reflexivity. }
  split; [exact Hfirst |]. split; [exact Hsecond |].
  unfold and_then. run_prog. rewrite Hfirst. exact Hsecond.
Qed.

Lemma PWMPin_gives_every_name_the_same_pin_witness :
  let w := Bench.fresh_world Bench.obliging_kernel in
  ∃ w',
    and_then (PWMPin "GPIOA6") (PWMPin "GPIOC3") w
    = Normal ((Some {| channel := 0 |}, None), w') ∧
    calls (kernel w')
    = [PwmExport 0; PwmEnable 0 false; PwmInvertPolarity 0 false;
       PwmEnable 0 true; PwmSetPeriod 0 10000000].
Proof.
  eexists. split.
  - exact (proj2 (proj2 (PWMPin_gives_every_name_the_same_pin "GPIOA6" "GPIOC3"
                           (Bench.fresh_world Bench.obliging_kernel)
                           eq_refl eq_refl eq_refl))).
  - reflexivity.
Defined.

(** X22: a PWM pin whose set-up failed is not cached (unlike a digital
    pin): after a [PWMPin] whose export failed, the next [PWMPin] starts
    the set-up over, with the export. *)
Theorem PWMPin_retries_after_failure (name name' : string) (w : World)
  (msg : string) :
  pinmap (adaptor w) = ∅ →
  map_index (pwmPins (adaptor w)) 0 = None →
  reply (kernel w) (calls (kernel w)) (PwmExport 0) = Some msg →
  let w1 := with_calls [PwmExport 0] w in
  PWMPin name w = Normal ((None, Some (SysfsError msg)), w1) ∧
  and_then (PWMPin name) (PWMPin name') w = PWMPin name' w1 ∧
  ∃ r w' rest,
    PWMPin name' w1 = Normal (r, w') ∧
    calls (kernel w') = calls (kernel w) ++ PwmExport 0 :: PwmExport 0 :: rest.
Proof.
  intros Hnil Hp Hexport w1.
  pose proof (PWMPin_created name w Hnil Hp) as Hfirst.
  cbv zeta in Hfirst. cbn [failures] in Hfirst. rewrite Hexport in Hfirst.
  destruct Hfirst as [rest Hfirst].
  assert (Hrest : rest = []).
  { unfold PWMPin in Hfirst. revert Hfirst. run_prog. unfold get_adaptor.
    cbv beta iota. rewrite (nil_pinmap_zero name _ Hnil).
    cbn [pwmPin sysfsPin_zero channel].
    destruct (decide (0 ≠ -1)) as [_ | Hne]; [| exfalso; apply Hne; discriminate].
    rewrite Hp, or_return_run, Hexport.
    intros [= Hcalls]. apply (f_equal length) in Hcalls.
    rewrite !length_app in Hcalls. cbn in Hcalls.
    destruct rest; [reflexivity | cbn in Hcalls; lia]. }
  subst rest. fold w1 in Hfirst.
  split; [exact Hfirst |].
  split; [unfold and_then; run_prog; rewrite Hfirst; reflexivity |].
  pose proof (PWMPin_created name' w1 Hnil Hp) as Hsecond. cbv zeta in Hsecond.
  destruct (failures (reply (kernel w1)) (calls (kernel w1))
              [PwmExport 0; PwmEnable 0 false; PwmInvertPolarity 0 false;
               PwmEnable 0 true; PwmSetPeriod 0 10000000]).
  - eexists _, _, _. split; [exact Hsecond |].
    cbn [kernel calls with_calls with_adaptor w1]. rewrite <- app_assoc.
    reflexivity.
  - destruct Hsecond as [rest Hsecond].
    eexists _, _, rest. split; [exact Hsecond |].
    cbn [kernel calls with_calls w1]. rewrite <- app_assoc. reflexivity.
Qed.

Lemma PWMPin_retries_after_failure_witness :
  let w := Bench.fresh_world
             (Bench.kernel_failing (PwmExport 0) "device or resource busy") in
  and_then (PWMPin "GPIOA6") (PWMPin "GPIOA6") w
  = Normal ((None, Some (SysfsError "device or resource busy")),
            with_calls [PwmExport 0; PwmExport 0] w).
Proof.
  cbv zeta.
  rewrite (proj1 (proj2 (PWMPin_retries_after_failure "GPIOA6" "GPIOA6"
                           (Bench.fresh_world
                              (Bench.kernel_failing (PwmExport 0)
                                 "device or resource busy"))
                           "device or resource busy" eq_refl eq_refl eq_refl))).
  vm_compute. reflexivity.
Defined.

(** *** After Finalize *)

(** A run of [Finalize] changes the adaptor in nothing: only calls are
    made. *)
Lemma Finalize_run_calls (w w1 : World) (err : option error) :
  Finalize_run w (Normal (err, w1)) →
  ∃ ds ps,
    ds ≡ₚ map_to_list (digitalPins (adaptor w)) ∧
    ps ≡ₚ map_to_list (pwmPins (adaptor w)) ∧
    w1 = with_calls (digital_releases ds ++ pwm_releases ps
                     ++ bus_releases (i2cBuses (adaptor w))) w.
Proof.
  intros (ds & ps & Hds & Hps & Heq). exists ds, ps.
  split; [exact Hds |]. split; [exact Hps |].
  rewrite Finalize_in_run in Heq. injection Heq as _ ->. reflexivity.
Qed.



Lemma digital_releases_Permutation (ds ds' : list (Z * option sysfs_DigitalPin)) :
  ds ≡ₚ ds' → digital_releases ds ≡ₚ digital_releases ds'.
Proof. intros Hperm. unfold digital_releases. rewrite Hperm. reflexivity. Qed.

Lemma pwm_releases_Permutation (ps ps' : list (Z * option sysfs_PWMPin)) :
  ps ≡ₚ ps' → pwm_releases ps ≡ₚ pwm_releases ps'.
Proof. intros Hperm. unfold pwm_releases. rewrite Hperm. reflexivity. Qed.

(** X24: [Finalize] can be called again, and releases everything again.
    The second run makes the same release calls as the first, possibly in
    another order, on handles that are released already, and returns the
    aggregate of what fails this time. *)
Theorem Finalize_twice_releases_twice (w w1 : World) (err : option error)
  (res : outcome (option error * World)) :
  Finalize_run w (Normal (err, w1)) →
  Finalize_run w1 res →
  ∃ ops1 ops2,
    w1 = with_calls ops1 w ∧
    ops2 ≡ₚ ops1 ∧
    res = Normal (aggregate (failures (reply (kernel w))
                               (calls (kernel w) ++ ops1) ops2),
                  with_calls (ops1 ++ ops2) w).
Proof.
  intros (ds & ps & Hds & Hps & ->)%Finalize_run_calls
         (ds' & ps' & Hds' & Hps' & ->).
  rewrite with_calls_adaptor in Hds', Hps'.
  eexists _, _. split; [reflexivity |]. split; [| rewrite Finalize_in_run].
  2: { cbv zeta. rewrite with_calls_reply, with_calls_calls, with_calls_adaptor,
         with_calls_twice. reflexivity. }
  apply Permutation_app; [| apply Permutation_app; [| reflexivity]].
  - apply digital_releases_Permutation. rewrite Hds', Hds. reflexivity.
  - apply pwm_releases_Permutation. rewrite Hps', Hps. reflexivity.
Qed.

(** Unexporting GPIO 203 fails both times. *)
Lemma Finalize_twice_releases_twice_witness :
  let w := Bench.three_pins in
  let ds := map_to_list (digitalPins (adaptor w)) in
  let ps := map_to_list (pwmPins (adaptor w)) in
  ∃ err w1 ops1 ops2,
    Finalize_in ds ps w = Normal (err, w1) ∧
    Finalize_in ds ps w1
    = Normal (Some (MultiError [SysfsError "device or resource busy"]),
              with_calls (ops1 ++ ops2) w) ∧
    ops2 ≡ₚ ops1.
Proof.
  cbv zeta.
  set (w := Bench.three_pins).
  set (ds := map_to_list (digitalPins (adaptor w))).
  set (ps := map_to_list (pwmPins (adaptor w))).
  pose proof (Finalize_in_run ds ps w) as Hfirst. cbv zeta in Hfirst.
  assert (Hrun : Finalize_run w (Finalize_in ds ps w)).
  { exists ds, ps. split; [reflexivity |]. split; reflexivity. }
  rewrite Hfirst in Hrun.
  match type of Hrun with
  | Finalize_run _ (Normal (?e, ?w1)) =>
      assert (Hrun' : Finalize_run w1 (Finalize_in ds ps w1))
        by (exists ds, ps; split; [reflexivity |]; split; reflexivity);
      destruct (Finalize_twice_releases_twice w w1 e _ Hrun Hrun')
        as (ops1 & ops2 & _ & Hperm & Hres);
      exists e, w1, ops1, ops2
  end.
  split; [exact Hfirst |]. split; [| exact Hperm].
  rewrite Hres. f_equal. f_equal.
  assert (Herr : match Finalize_in ds ps
                         (with_calls (digital_releases ds ++ pwm_releases ps
                                      ++ bus_releases (i2cBuses (adaptor w))) w)
                 with
                 | Normal (e, _) => e
                 | Panicked _ => None
                 end = Some (MultiError [SysfsError "device or resource busy"]))
    by (vm_compute; reflexivity).
  rewrite Hres in Herr. exact Herr.
Defined.

End BoardMore.
